(** * AI travel planner: the itinerary core of [app.py]

    A shallow embedding of the geo-math helpers ([haversine_km],
    [travel_time_between]), the POI scorer ([score_poi]) and the greedy
    itinerary builder ([build_greedy_itinerary]).

    Python floats are idealised as real numbers ([R]): every statement
    below is about exact arithmetic, not about IEEE rounding.  The routing
    service is an oracle indexed by the number of requests made so far, so
    that two requests for the same route may be answered differently. *)

From Stdlib Require Import Reals Lra Lia ZArith List String.
From Stdlib Require Import Sorting.Permutation Sorting.Sorted.
Import ListNotations.
Open Scope string_scope.
Open Scope list_scope.
Open Scope R_scope.

(** ** Geo-Math: great-circle distance *)

(** [math.radians] *)
Definition radians (x : R) : R := x * (PI / 180).

(** The haversine intermediate [a] of [haversine_km]. *)
Definition hav_a (lat1 lon1 lat2 lon2 : R) : R :=
  let lon1 := radians lon1 in
  let lat1 := radians lat1 in
  let lon2 := radians lon2 in
  let lat2 := radians lat2 in
  let dlon := lon2 - lon1 in
  let dlat := lat2 - lat1 in
  sin (dlat / 2) ^ 2 + cos lat1 * cos lat2 * sin (dlon / 2) ^ 2.

(** [min(1, sqrt(a))]: the argument handed to [asin].  [math.sqrt] raises
    [ValueError] on a negative argument; in exact arithmetic [a] is never
    negative, so the value alone is modelled.  What rounding does to [a]
    in floating point (above [1], or below [0] for latitudes outside
    [-90, 90]) is not described by this development. *)
Definition asin_arg (a : R) : R := Rmin 1 (sqrt a).

(** [c = 2 * asin(min(1, sqrt(a)))] and [km = 6371 * c]. *)
Definition km_of_a (a : R) : R :=
  let c := 2 * asin (asin_arg a) in
  6371 * c.

Definition haversine_km (lat1 lon1 lat2 lon2 : R) : R :=
  km_of_a (hav_a lat1 lon1 lat2 lon2).

(** ** Python values met by the routing call *)

(** The exceptions that the [try] block of [travel_time_between] can see. *)
Inductive exn : Type :=
| ReadTimeout | ConnectionError | JSONDecodeError
| KeyError | IndexError | TypeError | OverflowError.

(** A decoded JSON document, as [r.json()] returns it.  [JDict kv] lists
    the keys of a dictionary, each of them once.  A number written without
    fraction or exponent is decoded as an integer of any size ([JInt]),
    every other number as a float ([JNum]). *)
#[local] Unset Elimination Schemes.
Inductive json : Type :=
| JNull
| JBool (b : bool)
| JNum (x : R)
| JInt (z : Z)
| JStr (s : string)
| JList (l : list json)
| JDict (kv : list (string * json)).
#[local] Set Elimination Schemes.

Definition result (A : Type) : Type := (exn + A)%type.

Definition bind {A B} (m : result A) (k : A -> result B) : result B :=
  match m with
  | inl e => inl e
  | inr a => k a
  end.

Notation "x <- m ;; k" := (bind m (fun x => k))
  (at level 61, m at next level, right associativity).

(** [j[k]] with a string key. *)
Definition getitem_str (j : json) (k : string) : result json :=
  match j with
  | JDict kv =>
      match find (fun e => String.eqb (fst e) k) kv with
      | Some e => inr (snd e)
      | None => inl KeyError
      end
  | _ => inl TypeError
  end.

(** [j[i]] with an integer index [i >= 0]. *)
Definition getitem_int (j : json) (i : nat) : result json :=
  match j with
  | JList l =>
      match nth_error l i with
      | Some x => inr x
      | None => inl IndexError
      end
  | JStr s =>
      match String.get i s with
      | Some c => inr (JStr (String c EmptyString))
      | None => inl IndexError
      end
  | JDict _ => inl KeyError
  | _ => inl TypeError
  end.

(** The magnitude from which the quotient of two integers rounds to no
    finite float: halfway between the largest float and [2 ^ 1024]. *)
Definition float_overflow : R := IZR (2 ^ 1024 - 2 ^ 970).

(** [j / d] for an integer constant [d]; a Python [bool] is an [int].  The
    quotient of two integers raises [OverflowError] when it is too large
    for a float. *)
Definition truediv (j : json) (d : R) : result R :=
  match j with
  | JNum x => inr (x / d)
  | JInt z =>
      if Rle_dec float_overflow (Rabs (IZR z / d)) then inl OverflowError
      else inr (IZR z / d)
  | JBool b => inr ((if b then 1 else 0) / d)
  | _ => inl TypeError
  end.

(** [r.json()["routes"][0]["duration"] / 60], given the outcome of the
    request and of the decoding of its body. *)
Definition route_minutes (resp : result json) : result R :=
  r <- resp ;;
  routes <- getitem_str r "routes" ;;
  route0 <- getitem_int routes 0 ;;
  duration <- getitem_str route0 "duration" ;;
  truediv duration 60.

(** ** POI records *)

(** The nested ["point"] dictionary of a raw record. *)
Record Point : Type := mkPoint {
  pt_lat : option R;
  pt_lon : option R
}.

(** A raw POI record: every key may be absent. *)
Record POI : Type := mkPOI {
  poi_point : option Point;
  poi_lat : option R;
  poi_lon : option R;
  poi_rate : option R;
  poi_name : option string;
  poi_kinds : option string
}.

(** [poi.get("point", {})] *)
Definition get_point (poi : POI) : Point :=
  match poi_point poi with
  | Some d => d
  | None => mkPoint None None
  end.

(** Truth value of the result of a [dict.get] on a numeric field:
    [None] and [0] are false. *)
Definition truthy (v : option R) : bool :=
  match v with
  | Some x => if Req_dec_T x 0 then false else true
  | None => false
  end.

(** [a or b] *)
Definition py_or (a b : option R) : option R :=
  if truthy a then a else b.

(** [poi.get("point", {}).get("lat") or poi.get("lat")] *)
Definition resolve_lat (poi : POI) : option R :=
  py_or (pt_lat (get_point poi)) (poi_lat poi).

Definition resolve_lon (poi : POI) : option R :=
  py_or (pt_lon (get_point poi)) (poi_lon poi).

(** [poi.get("rate", 0)] *)
Definition get_rate (poi : POI) : R :=
  match poi_rate poi with
  | Some r => r
  | None => 0
  end.

Definition score_poi (poi : POI) (origin_lat origin_lon : R) : R :=
  match resolve_lat poi, resolve_lon poi with
  | Some lat, Some lon =>
      let dist_km := haversine_km origin_lat origin_lon lat lon in
      let popularity := get_rate poi in
      popularity * 2 - dist_km
  | _, _ => 0
  end.

(** ** Itinerary data *)

(** A record of [poi_list]: the raw POI with the keys ["_lat"], ["_lon"]
    and ["_score"] that the builder adds to it. *)
Record Cand : Type := mkCand {
  raw : POI;
  _lat : R;
  _lon : R;
  _score : R
}.

(** An entry of [current_day["items"]]. *)
Record Visit : Type := mkVisit {
  name : option string;
  lat : R;
  lon : R;
  travel_min : R;
  visit_min : R;
  desc : option string
}.

(** A day dictionary. *)
Record DayPlan : Type := mkDay {
  day_no : Z;
  items : list Visit;
  minutes_left : R
}.

(** [round(x)] to the nearest integer, ties to the even one. *)
Definition round_half_even (y : R) : Z :=
  let f := Int_part y in
  let d := y - IZR f in
  if Rlt_dec d (1 / 2) then f
  else if Rlt_dec (1 / 2) d then (f + 1)%Z
  else if Z.even f then f else (f + 1)%Z.

(** [round(x, 1)] *)
Definition round1 (x : R) : R := IZR (round_half_even (x * 10)) / 10.

(** [sorted(l, key=key)]: a stable sort, ascending in [key].  The element
    being inserted comes before the ones of [l] in the input, so it goes
    before every element whose key is not strictly smaller. *)
Fixpoint insert_by {A : Type} (key : A -> R) (x : A) (l : list A) : list A :=
  match l with
  | [] => [x]
  | y :: l' =>
      if Rlt_dec (key y) (key x) then y :: insert_by key x l'
      else x :: l
  end.

Fixpoint sorted {A : Type} (key : A -> R) (l : list A) : list A :=
  match l with
  | [] => []
  | x :: l' => insert_by key x (sorted key l')
  end.

(** The first loop of [build_greedy_itinerary]: keep the records whose
    coordinates resolve, and attach coordinates and score. *)
Fixpoint poi_list (pois : list POI) (start_lat start_lon : R) : list Cand :=
  match pois with
  | [] => []
  | p :: rest =>
      match resolve_lat p, resolve_lon p with
      | Some la, Some lo =>
          mkCand p la lo (score_poi p start_lat start_lon)
            :: poi_list rest start_lat start_lon
      | _, _ => poi_list rest start_lat start_lon
      end
  end.

(** The dictionary appended to [current_day["items"]]. *)
Definition visit_of (p : Cand) (travel visit : R) : Visit :=
  {| name := poi_name (raw p);
     lat := _lat p;
     lon := _lon p;
     travel_min := round1 travel;
     visit_min := visit;
     desc := poi_kinds (raw p) |}.

(** The local variables of the packing loop.  [requests] counts the
    routing requests made so far. *)
Record state : Type := mkState {
  current_lat : R;
  current_lon : R;
  day : Z;
  itinerary : list DayPlan;
  current_day : DayPlan;
  requests : nat
}.

Section Planner.

(** The routing service: the outcome of the [n]-th request (the HTTP
    exchange and the decoding of the body), for a profile and the four
    coordinates of the URL, [lon1,lat1;lon2,lat2]. *)
Variable osrm : nat -> string -> R -> R -> R -> R -> result json.

Definition travel_time_between (n : nat) (lat1 lon1 lat2 lon2 : R)
    (mode : string) : R :=
  let profile := if String.eqb mode "foot" then "foot" else "driving" in
  match route_minutes (osrm n profile lon1 lat1 lon2 lat2) with
  | inr minutes => minutes
  | inl _ =>
      let dist := haversine_km lat1 lon1 lat2 lon2 in
      let speed := if String.eqb mode "foot" then 5 else 40 in
      (dist / speed) * 60
  end.

Variables (start_lat start_lon : R) (days : Z) (hours_per_day : R)
          (mode : string).

(** [for p in poi_list: ...]; the state returned is the one at the
    [break] or at the end of the list.  On the [break] path
    [current_day] is still the day that has just been appended: the
    list and the variable hold the same dictionary, which nothing
    modifies afterwards. *)
Fixpoint pack (l : list Cand) (st : state) : state :=
  match l with
  | [] => st
  | p :: rest =>
      let travel :=
        travel_time_between (requests st) (current_lat st) (current_lon st)
          (_lat p) (_lon p) mode in
      let visit := 60 in
      let total_needed := travel + visit in
      let cur := current_day st in
      if Rge_dec (minutes_left cur) total_needed then
        pack rest
          {| current_lat := _lat p;
             current_lon := _lon p;
             day := day st;
             itinerary := itinerary st;
             current_day :=
               mkDay (day_no cur)
                 (items cur ++ [visit_of p travel visit])
                 (minutes_left cur - total_needed);
             requests := S (requests st) |}
      else
        let out := itinerary st ++ [cur] in
        let day' := (day st + 1)%Z in
        if (day' >? days)%Z then
          {| current_lat := current_lat st;
             current_lon := current_lon st;
             day := day';
             itinerary := out;
             current_day := cur;
             requests := S (requests st) |}
        else
          let fresh := mkDay day' [] (hours_per_day * 60) in
          let travel' :=
            travel_time_between (S (requests st)) start_lat start_lon
              (_lat p) (_lon p) mode in
          if Rge_dec (minutes_left fresh) (travel' + visit) then
            pack rest
              {| current_lat := _lat p;
                 current_lon := _lon p;
                 day := day';
                 itinerary := out;
                 current_day :=
                   mkDay day' [visit_of p travel' visit]
                     (minutes_left fresh - (travel' + visit));
                 requests := S (S (requests st)) |}
          else
            pack rest
              {| current_lat := current_lat st;
                 current_lon := current_lon st;
                 day := day';
                 itinerary := out;
                 current_day := fresh;
                 requests := S (S (requests st)) |}
  end.

(** The state before the packing loop. *)
Definition initial : state :=
  {| current_lat := start_lat;
     current_lon := start_lon;
     day := 1;
     itinerary := [];
     current_day := mkDay 1 [] (hours_per_day * 60);
     requests := O |}.

(** [if current_day["items"]: itinerary["days"].append(current_day)] *)
Definition flush (st : state) : list DayPlan :=
  match items (current_day st) with
  | [] => itinerary st
  | _ :: _ => itinerary st ++ [current_day st]
  end.

(** The value of [itinerary["days"]] in the dictionary returned.  The
    records come last, after the oracle and the other arguments. *)
Definition build_greedy_itinerary (pois : list POI) : list DayPlan :=
  let l := poi_list pois start_lat start_lon in
  let l := sorted (fun x => - _score x) l in
  flush (pack l initial).

End Planner.

(** ** Notions used in the statements *)

(** [sum(v.travel_min + v.visit_min for v in day.items)] *)
Definition booked (d : DayPlan) : R :=
  fold_right (fun v acc => travel_min v + visit_min v + acc) 0 (items d).

(** The candidates whose score is [k]. *)
Definition has_score (k : R) (c : Cand) : bool :=
  if Req_dec_T (_score c) k then true else false.

(** A well-formed answer of the routing service, of the given duration in
    seconds. *)
Definition route_ok (seconds : R) : json :=
  JDict [("code", JStr "Ok");
         ("routes", JList [JDict [("duration", JNum seconds)]])].

(** A routing service that is down. *)
Definition osrm_down : nat -> string -> R -> R -> R -> R -> result json :=
  fun _ _ _ _ _ _ => inl ReadTimeout.

(** A routing service that answers its successive requests with the given
    durations, and then times out. *)
Definition osrm_replies (seconds : list R)
  : nat -> string -> R -> R -> R -> R -> result json :=
  fun n _ _ _ _ _ =>
    match nth_error seconds n with
    | Some s => inr (route_ok s)
    | None => inl ReadTimeout
    end.

(** A raw record with a nested point, as the directory returns them. *)
Definition place (nm : string) (la lo : R) : POI :=
  {| poi_point := Some (mkPoint (Some la) (Some lo));
     poi_lat := None;
     poi_lon := None;
     poi_rate := None;
     poi_name := Some nm;
     poi_kinds := None |}.

(** A candidate, and a state of the loop in which a first visit has left
    30 minutes in day 1. *)
Definition lake : Cand := mkCand (place "Lake" 28 77) 28 77 0.

Definition afternoon : state :=
  {| current_lat := 27.5;
     current_lon := 76.5;
     day := 1;
     itinerary := [];
     current_day := mkDay 1 [mkVisit (Some "Fort") 27.5 76.5 30 60 None] 30;
     requests := 1 |}.

(** A record on the equator, with no flat coordinates. *)
Definition equator_marker : POI :=
  {| poi_point := Some (mkPoint (Some 0) (Some 10));
     poi_lat := None;
     poi_lon := None;
     poi_rate := Some 7;
     poi_name := Some "Equator marker";
     poi_kinds := None |}.

(** The records that the first loop of the builder keeps. *)
Definition resolvable (p : POI) : bool :=
  match resolve_lat p, resolve_lon p with
  | Some _, Some _ => true
  | _, _ => false
  end.

(** Days numbered 1, 2, 3, ... in this order. *)
Definition numbered (l : list DayPlan) : Prop :=
  map day_no l = map Z.of_nat (seq 1 (List.length l)).

(** What a visit shows of the candidate it was made from. *)
Definition stop_of (c : Cand) : option string * R * R :=
  (poi_name (raw c), _lat c, _lon c).

Definition stop_at (v : Visit) : option string * R * R :=
  (name v, lat v, lon v).

(** [l1] is [l2] with some elements left out. *)
Inductive subseq {A : Type} : list A -> list A -> Prop :=
| subseq_nil : subseq [] []
| subseq_skip (x : A) (l1 l2 : list A) : subseq l1 l2 -> subseq l1 (x :: l2)
| subseq_take (x : A) (l1 l2 : list A) :
    subseq l1 l2 -> subseq (x :: l1) (x :: l2).

(** ** The directory helpers and the interest mapping *)

Definition INTEREST_MAPPING : list (string * string) :=
  [("museums", "cultural");
   ("historic", "historic");
   ("nature", "natural");
   ("food", "restaurants,cafes");
   ("nightlife", "nightlife");
   ("shopping", "shops")].

(** The options of the "Interests" selector. *)
Definition interest_options : list string :=
  ["museums"; "historic"; "nature"; "food"; "nightlife"; "shopping"].

(** [INTEREST_MAPPING[i]] *)
Definition interest_kind (i : string) : result string :=
  match find (fun e => String.eqb (fst e) i) INTEREST_MAPPING with
  | Some e => inr (snd e)
  | None => inl KeyError
  end.

(** The generator [INTEREST_MAPPING[i] for i in interests], consumed by
    [join]: the first missing key stops it. *)
Fixpoint interest_kinds (interests : list string) : result (list string) :=
  match interests with
  | [] => inr []
  | i :: rest =>
      k <- interest_kind i ;;
      ks <- interest_kinds rest ;;
      inr (k :: ks)
  end.

(** [",".join(INTEREST_MAPPING[i] for i in interests) if interests
    else None] *)
Definition kinds_of (interests : list string) : result (option string) :=
  match interests with
  | [] => inr None
  | _ :: _ =>
      ks <- interest_kinds interests ;;
      inr (Some (String.concat "," ks))
  end.

(** A value of the [params] dictionary of a request. *)
Inductive param : Type :=
| PNum (x : R)
| PStr (s : string)
| PNone.

(** An environment variable, read with [os.getenv]. *)
Definition param_of_env (v : option string) : param :=
  match v with
  | Some s => PStr s
  | None => PNone
  end.

(** Truth value of an optional string: [None] and [""] are false. *)
Definition str_truthy (v : option string) : bool :=
  match v with
  | Some (String _ _) => true
  | _ => false
  end.

(** What the [try] block of a directory request can raise:
    [requests.HTTPError], which [raise_for_status] raises, or another
    exception. *)
Inductive raised : Type :=
| HTTPError
| Other (e : exn).

(** The answer to a request: its status code and the outcome of
    [resp.json()]. *)
Record response : Type := mkResponse {
  status_code : Z;
  body : result json
}.

(** [resp.raise_for_status()]: client and server error codes raise. *)
Definition raise_for_status (resp : response) : raised + unit :=
  if ((400 <=? status_code resp) && (status_code resp <? 600))%Z%bool
  then inl HTTPError
  else inr tt.

Section Directory.

Variable OPENTRIPMAP_KEY : option string.

(** [requests.get(url, params=params, timeout=10)] *)
Variable http_get : string -> list (string * param) -> raised + response.

(** The [params] of [fetch_pois_opentripmap], in insertion order. *)
Definition fetch_params (lat lon radius_m : R) (kinds : option string)
    (limit : R) : list (string * param) :=
  let params :=
    [("apikey", param_of_env OPENTRIPMAP_KEY);
     ("radius", PNum radius_m);
     ("lon", PNum lon);
     ("lat", PNum lat);
     ("limit", PNum limit);
     ("format", PStr "json")] in
  if str_truthy kinds then params ++ [("kinds", param_of_env kinds)]
  else params.

(** The result is an exception that reaches the caller, or the value
    returned together with whether [st.error] was called.  The function
    is cached by [st.cache_data], which repeats the value of an earlier
    call with the same arguments: this is one call that is computed. *)
Definition fetch_pois_opentripmap (lat lon radius_m : R)
    (kinds : option string) (limit : R) : result (json * bool) :=
  let url := "https://api.opentripmap.com/0.1/en/places/radius" in
  let params := fetch_params lat lon radius_m kinds limit in
  let attempt : raised + json :=
    match http_get url params with
    | inl r => inl r
    | inr resp =>
        match raise_for_status resp with
        | inl r => inl r
        | inr _ =>
            match body resp with
            | inl e => inl (Other e)
            | inr items => inr items
            end
        end
    end in
  match attempt with
  | inr items => inr (items, false)
  | inl HTTPError => inr (JList [], true)
  | inl (Other e) => inl e
  end.

(** The bare [except] returns [{}] for every exception. *)
Definition get_poi_details (xid : string) : json :=
  let url :=
    String.append "https://api.opentripmap.com/0.1/en/places/xid/" xid in
  match http_get url [("apikey", param_of_env OPENTRIPMAP_KEY)] with
  | inl _ => JDict []
  | inr resp =>
      if negb (status_code resp =? 200)%Z then JDict []
      else
        match body resp with
        | inl _ => JDict []
        | inr details => details
        end
  end.

End Directory.

(** A directory that answers every request with one status and body. *)
Definition http_always (status : Z) (b : result json)
  : string -> list (string * param) -> raised + response :=
  fun _ _ => inr (mkResponse status b).

(** * Properties *)

(** ** Great-circle distance *)

Lemma sin_half_sqr (x : R) : sin (x / 2) ^ 2 = (1 - cos x) / 2.
Proof.
  replace (cos x) with (cos (2 * (x / 2))) by (f_equal; field).
  rewrite cos_2a_sin. field.
Qed.

Lemma sin_half_sqr_bounds (x : R) : 0 <= sin (x / 2) ^ 2 <= 1.
Proof.
  rewrite sin_half_sqr. pose proof (COS_bound x). lra.
Qed.

(** The intermediate [a] is the haversine of the central angle: over the
    reals it lies in [0, 1] for all arguments, also for latitudes
    outside [-90, 90]. *)
Lemma hav_a_bounds (lat1 lon1 lat2 lon2 : R) :
  0 <= hav_a lat1 lon1 lat2 lon2 <= 1.
Proof.
  unfold hav_a.
  set (u := radians lat1). set (v := radians lat2).
  set (s := sin ((radians lon2 - radians lon1) / 2) ^ 2).
  assert (Hs : 0 <= s <= 1) by apply sin_half_sqr_bounds.
  rewrite sin_half_sqr, cos_minus.
  pose proof (COS_bound (v - u)) as Hm. rewrite cos_minus in Hm.
  pose proof (COS_bound (v + u)) as Hp. rewrite cos_plus in Hp.
  generalize dependent s. intros s Hs.
  generalize (cos u) (cos v) (sin u) (sin v) Hm Hp.
  intros cu cv su sv Hm' Hp'. split; nra.
Qed.

Lemma asin_arg_bounds (a : R) : 0 <= asin_arg a <= 1.
Proof.
  unfold asin_arg. pose proof (sqrt_pos a).
  unfold Rmin. destruct (Rle_dec 1 (sqrt a)); lra.
Qed.

Lemma asin_nonneg (x : R) : 0 <= x <= 1 -> 0 <= asin x.
Proof.
  intros Hx. destruct (Rle_dec 0 (asin x)) as [H | H]; [exact H |].
  exfalso. apply Rnot_le_lt in H.
  pose proof (asin_bound x) as [Hlo _].
  assert (Hs : sin (asin x) < 0).
  { apply sin_lt_0_var; [pose proof PI_RGT_0; lra | exact H]. }
  rewrite sin_asin in Hs by lra. lra.
Qed.

Lemma km_of_a_bounds (a : R) : 0 <= km_of_a a <= PI * 6371.
Proof.
  unfold km_of_a.
  pose proof (asin_arg_bounds a) as Ha.
  pose proof (asin_nonneg _ Ha).
  pose proof (asin_bound (asin_arg a)) as [_ Hhi].
  split; nra.
Qed.

Lemma haversine_km_nonneg (lat1 lon1 lat2 lon2 : R) :
  0 <= haversine_km lat1 lon1 lat2 lon2.
Proof. apply km_of_a_bounds. Qed.

Lemma hav_a_sym (lat1 lon1 lat2 lon2 : R) :
  hav_a lat1 lon1 lat2 lon2 = hav_a lat2 lon2 lat1 lon1.
Proof.
  unfold hav_a.
  replace ((radians lat1 - radians lat2) / 2)
    with (- ((radians lat2 - radians lat1) / 2)) by field.
  replace ((radians lon1 - radians lon2) / 2)
    with (- ((radians lon2 - radians lon1) / 2)) by field.
  rewrite !sin_neg. ring.
Qed.

Lemma hav_a_refl (lat1 lon1 : R) : hav_a lat1 lon1 lat1 lon1 = 0.
Proof.
  unfold hav_a.
  replace ((radians lat1 - radians lat1) / 2) with 0 by field.
  replace ((radians lon1 - radians lon1) / 2) with 0 by field.
  rewrite sin_0. ring.
Qed.

Lemma km_of_a_0 : km_of_a 0 = 0.
Proof.
  unfold km_of_a, asin_arg. rewrite sqrt_0.
  unfold Rmin. destruct (Rle_dec 1 0); [lra |].
  rewrite asin_0. ring.
Qed.

Lemma haversine_km_refl (lat1 lon1 : R) : haversine_km lat1 lon1 lat1 lon1 = 0.
Proof. unfold haversine_km. rewrite hav_a_refl. apply km_of_a_0. Qed.

(** C7.  Over the reals the distance is symmetric, [d(A, B) = d(B, A)],
    and the distance from a point to itself is [0]. *)
Theorem haversine_km_sym_refl :
  (forall lat1 lon1 lat2 lon2 : R,
      haversine_km lat1 lon1 lat2 lon2 = haversine_km lat2 lon2 lat1 lon1)
  /\ (forall lat1 lon1 : R, haversine_km lat1 lon1 lat1 lon1 = 0).
Proof.
  split.
  - intros. unfold haversine_km. now rewrite hav_a_sym.
  - apply haversine_km_refl.
Qed.

(** ** Travel time: routing answer and fallback *)

Lemma route_minutes_ok (seconds : R) :
  route_minutes (inr (route_ok seconds)) = inr (seconds / 60).
Proof. reflexivity. Qed.

(** The request itself failed (timeout, service unavailable, body that is
    not JSON). *)
Lemma route_minutes_request_failed (e : exn) :
  route_minutes (inl e) = inl e.
Proof. reflexivity. Qed.

(** Malformed answers: no ["routes"] key, an empty route list, a route
    without ["duration"], a duration that is not a number. *)
Lemma route_minutes_malformed :
  route_minutes (inr (JDict [("code", JStr "NoRoute")])) = inl KeyError
  /\ route_minutes (inr (JDict [("routes", JList [])])) = inl IndexError
  /\ route_minutes (inr (JDict [("routes", JList [JDict []])])) = inl KeyError
  /\ route_minutes
       (inr (JDict [("routes", JList [JDict [("duration", JNull)]])]))
     = inl TypeError
  /\ route_minutes (inr (JList [])) = inl TypeError.
Proof. repeat split. Qed.

Lemma travel_time_between_ok osrm n lat1 lon1 lat2 lon2 mode minutes :
  route_minutes
    (osrm n (if String.eqb mode "foot" then "foot" else "driving")
       lon1 lat1 lon2 lat2) = inr minutes ->
  travel_time_between osrm n lat1 lon1 lat2 lon2 mode = minutes.
Proof. unfold travel_time_between. now intros ->. Qed.

(** C4.  When the routing call fails, with whatever exception, the travel
    time is the analytic estimate: distance over 5 km/h for ["foot"] and
    over 40 km/h for every other mode, in minutes.  The function is total:
    no exception reaches the caller. *)
Theorem travel_time_between_fallback
    osrm n (lat1 lon1 lat2 lon2 : R) (mode : string) (e : exn) :
  route_minutes
    (osrm n (if String.eqb mode "foot" then "foot" else "driving")
       lon1 lat1 lon2 lat2) = inl e ->
  (mode = "foot" ->
   travel_time_between osrm n lat1 lon1 lat2 lon2 mode
   = haversine_km lat1 lon1 lat2 lon2 / 5 * 60)
  /\ (mode <> "foot" ->
      travel_time_between osrm n lat1 lon1 lat2 lon2 mode
      = haversine_km lat1 lon1 lat2 lon2 / 40 * 60).
Proof.
  intros Hfail. unfold travel_time_between. rewrite Hfail.
  split; intros Hm.
  - subst mode. reflexivity.
  - apply String.eqb_neq in Hm. now rewrite Hm.
Qed.

Lemma travel_time_between_fallback_witness :
  travel_time_between osrm_down 0 48 2 49 3 "foot"
  = haversine_km 48 2 49 3 / 5 * 60
  /\ travel_time_between osrm_down 0 48 2 49 3 "driving"
     = haversine_km 48 2 49 3 / 40 * 60.
Proof.
  split.
  - apply (travel_time_between_fallback osrm_down 0 48 2 49 3 "foot"
             ReadTimeout); reflexivity.
  - apply (travel_time_between_fallback osrm_down 0 48 2 49 3 "driving"
             ReadTimeout); [reflexivity | discriminate].
Defined.

(** The estimate is never negative. *)
Lemma fallback_nonneg (lat1 lon1 lat2 lon2 : R) (mode : string) :
  0 <= haversine_km lat1 lon1 lat2 lon2
       / (if String.eqb mode "foot" then 5 else 40) * 60.
Proof.
  pose proof (haversine_km_nonneg lat1 lon1 lat2 lon2) as H.
  destruct (String.eqb mode "foot"); unfold Rdiv; nra.
Qed.

(** ** Coordinate resolution and score *)

Lemma truthy_Some (x : R) : truthy (Some x) = true <-> x <> 0.
Proof.
  simpl. destruct (Req_dec_T x 0); split; intros; congruence.
Qed.

Lemma py_or_truthy (x : R) (b : option R) :
  x <> 0 -> py_or (Some x) b = Some x.
Proof.
  intros Hx. unfold py_or. apply truthy_Some in Hx. now rewrite Hx.
Qed.

Lemma py_or_zero (b : option R) : py_or (Some 0) b = b.
Proof.
  unfold py_or. simpl. destruct (Req_dec_T 0 0); [reflexivity | lra].
Qed.

Lemma py_or_None (b : option R) : py_or None b = b.
Proof. reflexivity. Qed.

Lemma score_poi_unresolved (poi : POI) (origin_lat origin_lon : R) :
  resolve_lat poi = None \/ resolve_lon poi = None ->
  score_poi poi origin_lat origin_lon = 0.
Proof.
  unfold score_poi. intros [-> | ->]; [reflexivity |].
  now destruct (resolve_lat poi).
Qed.

(** C5.  The score is [popularity * 2 - distance], with the popularity
    [0] when the record has no rate; each coordinate is taken from the
    nested point when it is there (and not zero) and from the flat field
    when the nested point has none; a record of which a coordinate does
    not resolve scores [0]. *)
Theorem score_poi_formula (poi : POI) (origin_lat origin_lon : R) :
  (forall la lo,
      resolve_lat poi = Some la -> resolve_lon poi = Some lo ->
      score_poi poi origin_lat origin_lon
      = get_rate poi * 2 - haversine_km origin_lat origin_lon la lo)
  /\ (resolve_lat poi = None \/ resolve_lon poi = None ->
      score_poi poi origin_lat origin_lon = 0)
  /\ (poi_rate poi = None -> get_rate poi = 0)
  /\ (forall r, poi_rate poi = Some r -> get_rate poi = r)
  /\ (forall x, pt_lat (get_point poi) = Some x -> x <> 0 ->
                resolve_lat poi = Some x)
  /\ (forall x, pt_lon (get_point poi) = Some x -> x <> 0 ->
                resolve_lon poi = Some x)
  /\ (pt_lat (get_point poi) = None -> resolve_lat poi = poi_lat poi)
  /\ (pt_lon (get_point poi) = None -> resolve_lon poi = poi_lon poi).
Proof.
  unfold score_poi, resolve_lat, resolve_lon, get_rate.
  repeat split.
  - intros la lo -> ->. reflexivity.
  - apply score_poi_unresolved.
  - now intros ->.
  - now intros r ->.
  - intros x -> Hx. now apply py_or_truthy.
  - intros x -> Hx. now apply py_or_truthy.
  - now intros ->.
  - now intros ->.
Qed.

Lemma score_poi_formula_witness :
  score_poi (place "Hawa Mahal" 26 75) 27 76
  = 0 * 2 - haversine_km 27 76 26 75
  /\ score_poi (mkPOI None None (Some 75) (Some 4) None None) 27 76 = 0.
Proof.
  split.
  - rewrite (proj1 (score_poi_formula (place "Hawa Mahal" 26 75) 27 76)
               26 75).
    + reflexivity.
    + apply py_or_truthy. lra.
    + apply py_or_truthy. lra.
  - apply (proj1 (proj2 (score_poi_formula
             (mkPOI None None (Some 75) (Some 4) None None) 27 76))).
    left. reflexivity.
Defined.

(** ** The stable sort *)

Section SortFacts.

Context {A : Type} (key : A -> R).

Let le_key (x y : A) : Prop := key x <= key y.

Lemma insert_by_perm (x : A) (l : list A) :
  Permutation (x :: l) (insert_by key x l).
Proof.
  induction l as [| y l IH]; simpl.
  - apply Permutation_refl.
  - destruct (Rlt_dec (key y) (key x)).
    + eapply perm_trans; [apply perm_swap |]. now apply perm_skip.
    + apply Permutation_refl.
Qed.

Lemma sorted_perm (l : list A) : Permutation l (sorted key l).
Proof.
  induction l as [| x l IH]; simpl.
  - apply perm_nil.
  - eapply perm_trans; [apply perm_skip, IH | apply insert_by_perm].
Qed.

Lemma sorted_length (l : list A) :
  List.length (sorted key l) = List.length l.
Proof. symmetry. apply Permutation_length, sorted_perm. Qed.

Lemma insert_by_HdRel (a x : A) (l : list A) :
  le_key a x -> HdRel le_key a l -> HdRel le_key a (insert_by key x l).
Proof.
  intros Hax Hal. destruct l as [| y l]; simpl.
  - now constructor.
  - destruct (Rlt_dec (key y) (key x)); constructor.
    + now inversion Hal.
    + exact Hax.
Qed.

Lemma insert_by_Sorted (x : A) (l : list A) :
  Sorted le_key l -> Sorted le_key (insert_by key x l).
Proof.
  induction 1 as [| y l Hs IH Hhd]; simpl.
  - repeat constructor.
  - destruct (Rlt_dec (key y) (key x)) as [Hlt | Hge].
    + constructor; [exact IH |].
      apply insert_by_HdRel; [unfold le_key; lra | exact Hhd].
    + constructor; [now constructor |].
      constructor. unfold le_key. lra.
Qed.

Lemma sorted_Sorted (l : list A) : Sorted le_key (sorted key l).
Proof.
  induction l as [| x l IH]; simpl.
  - constructor.
  - now apply insert_by_Sorted.
Qed.

Lemma sorted_StronglySorted (l : list A) :
  StronglySorted (fun x y => key x <= key y) (sorted key l).
Proof.
  apply Sorted_StronglySorted; [| apply sorted_Sorted].
  intros x y z. unfold le_key. lra.
Qed.

(** The elements that share a key keep their input order: the inserted
    element passes only elements of a strictly smaller key. *)
Variable same : A -> bool.
Hypothesis same_key :
  forall x y, same x = true -> same y = true -> key x = key y.

Lemma insert_by_filter (x : A) (l : list A) :
  filter same (insert_by key x l) = filter same (x :: l).
Proof.
  induction l as [| y l IH]; [reflexivity |].
  simpl insert_by. destruct (Rlt_dec (key y) (key x)) as [Hlt | Hge].
  - simpl in *. rewrite IH.
    destruct (same x) eqn:Hx; [| reflexivity].
    destruct (same y) eqn:Hy; [| reflexivity].
    pose proof (same_key _ _ Hx Hy). lra.
  - reflexivity.
Qed.

Lemma sorted_filter (l : list A) :
  filter same (sorted key l) = filter same l.
Proof.
  induction l as [| x l IH]; [reflexivity |].
  simpl sorted. rewrite insert_by_filter. simpl. now rewrite IH.
Qed.

(** A list that is already in order is left as it is. *)
Lemma insert_by_head (x : A) (l : list A) :
  Forall (fun y => key x <= key y) l -> insert_by key x l = x :: l.
Proof.
  intros H. destruct l as [| y l]; [reflexivity |].
  simpl. inversion H; subst.
  destruct (Rlt_dec (key y) (key x)); [lra | reflexivity].
Qed.

Lemma sorted_id (l : list A) :
  StronglySorted (fun x y => key x <= key y) l -> sorted key l = l.
Proof.
  induction 1 as [| x l Hs IH Hx]; [reflexivity |].
  simpl. rewrite IH. now apply insert_by_head.
Qed.

End SortFacts.

Lemma has_score_spec (k : R) (c : Cand) :
  has_score k c = true <-> _score c = k.
Proof.
  unfold has_score. destruct (Req_dec_T (_score c) k); split; congruence.
Qed.

(** C8.  The candidates handed to the packing loop are the filtered ones,
    in descending order of score, and those of one score are in their
    input order. *)
Theorem sorted_by_score_stable osrm start_lat start_lon days hours_per_day
    mode (pois : list POI) :
  let l := poi_list pois start_lat start_lon in
  let s := sorted (fun x => - _score x) l in
  build_greedy_itinerary osrm start_lat start_lon days hours_per_day mode pois
  = flush (pack osrm start_lat start_lon days hours_per_day mode s
             (initial start_lat start_lon hours_per_day))
  /\ Permutation l s
  /\ StronglySorted (fun x y => _score x >= _score y) s
  /\ forall k : R, filter (has_score k) s = filter (has_score k) l.
Proof.
  intros l s. split; [reflexivity |].
  split; [apply sorted_perm |].
  split.
  - pose proof (sorted_StronglySorted (fun x => - _score x) l) as H.
    fold s in H. clear -H.
    induction H as [| x t Hs IH Hx]; constructor; [exact IH |].
    eapply Forall_impl; [| exact Hx]. simpl. intros; lra.
  - intros k. subst s. apply sorted_filter.
    intros x y Hx Hy. apply has_score_spec in Hx, Hy. lra.
Qed.

(** ** Rounding to one decimal *)

Lemma round_half_even_error (y : R) :
  - (1 / 2) <= IZR (round_half_even y) - y <= 1 / 2.
Proof.
  unfold round_half_even.
  destruct (base_Int_part y) as [Hlo Hhi].
  set (f := Int_part y) in *.
  destruct (Rlt_dec (y - IZR f) (1 / 2)) as [H1 | H1]; [lra |].
  destruct (Rlt_dec (1 / 2) (y - IZR f)) as [H2 | H2].
  - rewrite plus_IZR. lra.
  - destruct (Z.even f); [| rewrite plus_IZR]; lra.
Qed.

(** The stored travel time is within 0.05 minute of the exact one. *)
Lemma round1_error (x : R) : - (1 / 20) <= round1 x - x <= 1 / 20.
Proof.
  unfold round1. pose proof (round_half_even_error (x * 10)). lra.
Qed.

(** The nearest integer, away from ties. *)
Lemma round_half_even_near (y : R) (k : Z) :
  IZR k - 1 / 2 < y < IZR k + 1 / 2 -> round_half_even y = k.
Proof.
  intros [Hlo Hhi]. unfold round_half_even.
  destruct (base_Int_part y) as [Hf1 Hf2].
  set (f := Int_part y) in *.
  assert (Hfk : (f <= k)%Z).
  { apply Z.lt_succ_r, lt_IZR. rewrite succ_IZR. lra. }
  assert (Hkf : (k <= f + 1)%Z).
  { apply Z.lt_succ_r, lt_IZR. rewrite succ_IZR, plus_IZR. lra. }
  assert (Hcase : f = k \/ f = (k - 1)%Z) by lia.
  destruct Hcase as [-> | ->].
  - destruct (Rlt_dec (y - IZR k) (1 / 2)); [reflexivity | lra].
  - rewrite minus_IZR in *.
    destruct (Rlt_dec (y - (IZR k - 1)) (1 / 2)); [lra |].
    destruct (Rlt_dec (1 / 2) (y - (IZR k - 1))); [lia | lra].
Qed.

Lemma round1_near (x : R) (k : Z) :
  IZR k - 1 / 2 < x * 10 < IZR k + 1 / 2 -> round1 x = IZR k / 10.
Proof.
  intros H. unfold round1. now rewrite (round_half_even_near _ _ H).
Qed.

(** ** The packing loop *)

Section PackFacts.

Variable osrm : nat -> string -> R -> R -> R -> R -> result json.
Variables (start_lat start_lon : R) (days : Z) (hours_per_day : R)
          (mode : string).

Local Abbreviation travel_time := (travel_time_between osrm).
Local Abbreviation pack_loop :=
  (pack osrm start_lat start_lon days hours_per_day mode).

(** The four ways through the body of the loop. *)

Lemma pack_fits (p : Cand) (rest : list Cand) (st : state) :
  let travel :=
    travel_time (requests st) (current_lat st) (current_lon st)
      (_lat p) (_lon p) mode in
  minutes_left (current_day st) >= travel + 60 ->
  pack_loop (p :: rest) st
  = pack_loop rest
      {| current_lat := _lat p;
         current_lon := _lon p;
         day := day st;
         itinerary := itinerary st;
         current_day :=
           mkDay (day_no (current_day st))
             (items (current_day st) ++ [visit_of p travel 60])
             (minutes_left (current_day st) - (travel + 60));
         requests := S (requests st) |}.
Proof.
  intros travel Hfit. simpl.
  destruct (Rge_dec _ _) as [_ | Hn]; [reflexivity | now elim Hn].
Qed.

Lemma pack_break (p : Cand) (rest : list Cand) (st : state) :
  let travel :=
    travel_time (requests st) (current_lat st) (current_lon st)
      (_lat p) (_lon p) mode in
  ~ minutes_left (current_day st) >= travel + 60 ->
  (day st + 1 > days)%Z ->
  pack_loop (p :: rest) st
  = {| current_lat := current_lat st;
       current_lon := current_lon st;
       day := day st + 1;
       itinerary := itinerary st ++ [current_day st];
       current_day := current_day st;
       requests := S (requests st) |}.
Proof.
  intros travel Hno Hday. simpl.
  destruct (Rge_dec _ _) as [Hy | _]; [now elim Hno |].
  apply Z.gtb_gt in Hday. now rewrite Hday.
Qed.

Lemma pack_new_day_fits (p : Cand) (rest : list Cand) (st : state) :
  let travel :=
    travel_time (requests st) (current_lat st) (current_lon st)
      (_lat p) (_lon p) mode in
  let travel' :=
    travel_time (S (requests st)) start_lat start_lon
      (_lat p) (_lon p) mode in
  ~ minutes_left (current_day st) >= travel + 60 ->
  (day st + 1 <= days)%Z ->
  hours_per_day * 60 >= travel' + 60 ->
  pack_loop (p :: rest) st
  = pack_loop rest
      {| current_lat := _lat p;
         current_lon := _lon p;
         day := day st + 1;
         itinerary := itinerary st ++ [current_day st];
         current_day :=
           mkDay (day st + 1) [visit_of p travel' 60]
             (hours_per_day * 60 - (travel' + 60));
         requests := S (S (requests st)) |}.
Proof.
  intros travel travel' Hno Hday Hfit. simpl.
  destruct (Rge_dec _ _) as [Hy | _]; [now elim Hno |].
  destruct (day st + 1 >? days)%Z eqn:E; [apply Z.gtb_gt in E; lia |].
  destruct (Rge_dec _ _) as [_ | Hn]; [reflexivity | now elim Hn].
Qed.

Lemma pack_new_day_drops (p : Cand) (rest : list Cand) (st : state) :
  let travel :=
    travel_time (requests st) (current_lat st) (current_lon st)
      (_lat p) (_lon p) mode in
  let travel' :=
    travel_time (S (requests st)) start_lat start_lon
      (_lat p) (_lon p) mode in
  ~ minutes_left (current_day st) >= travel + 60 ->
  (day st + 1 <= days)%Z ->
  ~ hours_per_day * 60 >= travel' + 60 ->
  pack_loop (p :: rest) st
  = pack_loop rest
      {| current_lat := current_lat st;
         current_lon := current_lon st;
         day := day st + 1;
         itinerary := itinerary st ++ [current_day st];
         current_day := mkDay (day st + 1) [] (hours_per_day * 60);
         requests := S (S (requests st)) |}.
Proof.
  intros travel travel' Hno Hday Hfit. simpl.
  destruct (Rge_dec _ _) as [Hy | _]; [now elim Hno |].
  destruct (day st + 1 >? days)%Z eqn:E; [apply Z.gtb_gt in E; lia |].
  destruct (Rge_dec _ _) as [Hy | _]; [now elim Hfit | reflexivity].
Qed.

(** Hoare-style rule for the loop: [I] holds while the loop runs, over
    candidates that satisfy [C]; [Q] holds when it is left, at the [break]
    or at the end of the list. *)
Lemma pack_rule (I Q : state -> Prop) (C : Cand -> Prop) :
  (forall st p,
      let travel :=
        travel_time (requests st) (current_lat st) (current_lon st)
          (_lat p) (_lon p) mode in
      I st -> C p -> minutes_left (current_day st) >= travel + 60 ->
      I {| current_lat := _lat p;
           current_lon := _lon p;
           day := day st;
           itinerary := itinerary st;
           current_day :=
             mkDay (day_no (current_day st))
               (items (current_day st) ++ [visit_of p travel 60])
               (minutes_left (current_day st) - (travel + 60));
           requests := S (requests st) |}) ->
  (forall st,
      I st -> (day st + 1 > days)%Z ->
      Q {| current_lat := current_lat st;
           current_lon := current_lon st;
           day := day st + 1;
           itinerary := itinerary st ++ [current_day st];
           current_day := current_day st;
           requests := S (requests st) |}) ->
  (forall st p,
      let travel' :=
        travel_time (S (requests st)) start_lat start_lon
          (_lat p) (_lon p) mode in
      I st -> C p -> (day st + 1 <= days)%Z ->
      hours_per_day * 60 >= travel' + 60 ->
      I {| current_lat := _lat p;
           current_lon := _lon p;
           day := day st + 1;
           itinerary := itinerary st ++ [current_day st];
           current_day :=
             mkDay (day st + 1) [visit_of p travel' 60]
               (hours_per_day * 60 - (travel' + 60));
           requests := S (S (requests st)) |}) ->
  (forall st,
      I st -> (day st + 1 <= days)%Z ->
      I {| current_lat := current_lat st;
           current_lon := current_lon st;
           day := day st + 1;
           itinerary := itinerary st ++ [current_day st];
           current_day := mkDay (day st + 1) [] (hours_per_day * 60);
           requests := S (S (requests st)) |}) ->
  (forall st, I st -> Q st) ->
  forall l st, Forall C l -> I st -> Q (pack_loop l st).
Proof.
  intros Hfit Hbreak Hnew Hdrop Hend.
  induction l as [| p rest IH]; intros st Hl Hst; [now apply Hend |].
  inversion Hl as [| ? ? Hp Hrest]; subst.
  simpl.
  destruct (Rge_dec _ _) as [Hy | Hn].
  - apply IH; [exact Hrest |]. now apply Hfit.
  - destruct (day st + 1 >? days)%Z eqn:E.
    + apply Z.gtb_gt in E. now apply Hbreak.
    + assert (day st + 1 <= days)%Z.
      { destruct (Z.gtb_spec (day st + 1) days); [discriminate | lia]. }
      destruct (Rge_dec _ _) as [Hy | Hn'].
      * apply IH; [exact Hrest |]. now apply Hnew.
      * apply IH; [exact Hrest |]. now apply Hdrop.
Qed.

(** The days returned are among the closed days and the current day. *)
Lemma flush_In (st : state) (d : DayPlan) :
  In d (flush st) -> In d (itinerary st) \/ d = current_day st.
Proof.
  unfold flush. destruct (items (current_day st)); [now left |].
  intros H. apply in_app_or in H as [H | [H | []]]; [now left | now right].
Qed.

Lemma flush_length (st : state) :
  (List.length (flush st) <= S (List.length (itinerary st)))%nat.
Proof.
  unfold flush. destruct (items (current_day st)); [lia |].
  rewrite length_app. simpl. lia.
Qed.

(** *** Capacity *)

Lemma booked_snoc (n : Z) (l : list Visit) (v : Visit) (m : R) :
  booked (mkDay n (l ++ [v]) m)
  = booked (mkDay n l m) + (travel_min v + visit_min v).
Proof.
  unfold booked. simpl. induction l as [| w l IH]; simpl; [| rewrite IH]; ring.
Qed.

Lemma visits_snoc (l : list Visit) (v : Visit) :
  INR (List.length (l ++ [v])) = INR (List.length l) + 1.
Proof. rewrite length_app, plus_INR. reflexivity. Qed.

(** What the counter of a day says about the day: the minutes booked by
    its visits are the minutes taken off the counter, up to the rounding
    of the stored travel times; the counter is not negative. *)
Let within (d : DayPlan) : Prop :=
  - (INR (List.length (items d)) / 20)
    <= booked d - (hours_per_day * 60 - minutes_left d)
    <= INR (List.length (items d)) / 20
  /\ (items d <> [] -> 0 <= minutes_left d)
  /\ (0 <= hours_per_day -> 0 <= minutes_left d).

Let all_days (P : DayPlan -> Prop) (st : state) : Prop :=
  forall d, In d (itinerary st) \/ d = current_day st -> P d.

Lemma all_days_close (P : DayPlan -> Prop) (st : state) (d : DayPlan) :
  all_days P st ->
  In d (itinerary st ++ [current_day st]) -> P d.
Proof.
  intros H Hd. apply H.
  apply in_app_or in Hd as [Hd | [Hd | []]]; [now left | now right].
Qed.

Lemma within_fresh (n : Z) : within (mkDay n [] (hours_per_day * 60)).
Proof.
  unfold within, booked. simpl. repeat split; try lra. congruence.
Qed.

Lemma pack_within (l : list Cand) (st : state) :
  all_days within st -> all_days within (pack_loop l st).
Proof.
  intros Hst.
  apply pack_rule with (I := all_days within) (C := fun _ => True);
    try assumption; try (now apply Forall_forall).
  - intros s p travel Hs _ Hfit d [Hd | ->]; [apply Hs; now left |].
    destruct (Hs (current_day s) (or_intror eq_refl)) as (Hb & _ & _).
    pose proof (round1_error travel) as Hr.
    unfold within in *. destruct (current_day s) as [n vs m].
    cbn [current_day items minutes_left day_no] in *.
    rewrite booked_snoc, visits_snoc.
    cbn [visit_of travel_min visit_min].
    unfold booked in *. cbn [items] in *.
    repeat split; lra.
  - intros s Hs _ d [Hd | ->]; cbn [itinerary current_day] in *.
    + now apply (all_days_close within s).
    + apply Hs. now right.
  - intros s p travel' Hs _ _ Hfit d [Hd | ->];
      cbn [itinerary current_day] in *.
    + now apply (all_days_close within s).
    + pose proof (round1_error travel') as Hr.
      unfold within, booked. simpl. repeat split; try lra.
  - intros s Hs _ d [Hd | ->]; cbn [itinerary current_day] in *.
    + now apply (all_days_close within s).
    + apply within_fresh.
  - auto.
Qed.

Lemma build_within (pois : list POI) (d : DayPlan) :
  In d (build_greedy_itinerary osrm start_lat start_lon days hours_per_day
          mode pois) ->
  within d.
Proof.
  unfold build_greedy_itinerary. intros Hd. apply flush_In in Hd.
  revert d Hd. apply pack_within.
  intros d [[] | ->]. apply within_fresh.
Qed.

(** When the routing service reports no negative duration, a visit takes
    at least its 60 minutes off the counter. *)
Section NonNegativeDurations.

Hypothesis osrm_nonneg :
  forall n profile lon1 lat1 lon2 lat2 minutes,
    route_minutes (osrm n profile lon1 lat1 lon2 lat2) = inr minutes ->
    0 <= minutes.

Lemma travel_time_nonneg n lat1 lon1 lat2 lon2 :
  0 <= travel_time n lat1 lon1 lat2 lon2 mode.
Proof.
  unfold travel_time_between.
  destruct (route_minutes _) as [e | m] eqn:E.
  - apply fallback_nonneg.
  - eapply osrm_nonneg, E.
Qed.

Let slack (d : DayPlan) : Prop :=
  minutes_left d + 60 * INR (List.length (items d)) <= hours_per_day * 60.

Lemma pack_slack (l : list Cand) (st : state) :
  all_days slack st -> all_days slack (pack_loop l st).
Proof.
  intros Hst.
  apply pack_rule with (I := all_days slack) (C := fun _ => True);
    try assumption; try (now apply Forall_forall).
  - intros s p travel Hs _ Hfit d [Hd | ->]; [apply Hs; now left |].
    pose proof (Hs (current_day s) (or_intror eq_refl)) as Hb.
    pose proof (travel_time_nonneg (requests s) (current_lat s)
                  (current_lon s) (_lat p) (_lon p)) as Ht.
    fold travel in Ht. unfold slack in *.
    cbn [current_day items minutes_left]. rewrite visits_snoc. lra.
  - intros s Hs _ d [Hd | ->]; cbn [itinerary current_day] in *.
    + now apply (all_days_close slack s).
    + apply Hs. now right.
  - intros s p travel' Hs _ _ Hfit d [Hd | ->];
      cbn [itinerary current_day] in *.
    + now apply (all_days_close slack s).
    + pose proof (travel_time_nonneg (S (requests s)) start_lat start_lon
                    (_lat p) (_lon p)) as Ht.
      fold travel' in Ht. unfold slack. simpl. lra.
  - intros s Hs _ d [Hd | ->]; cbn [itinerary current_day] in *.
    + now apply (all_days_close slack s).
    + unfold slack. simpl. lra.
  - auto.
Qed.

Lemma build_slack (pois : list POI) (d : DayPlan) :
  In d (build_greedy_itinerary osrm start_lat start_lon days hours_per_day
          mode pois) ->
  slack d.
Proof.
  unfold build_greedy_itinerary. intros Hd. apply flush_In in Hd.
  revert d Hd. apply pack_slack.
  intros d [[] | ->]. unfold slack. simpl. lra.
Qed.

End NonNegativeDurations.

(** *** Number of days *)

Lemma pack_days (l : list Cand) (st : state) :
  (1 <= day st <= days)%Z ->
  List.length (itinerary st) = Z.to_nat (day st - 1) ->
  (List.length (itinerary (pack_loop l st)) <= Z.to_nat days)%nat.
Proof.
  intros Hday Hlen.
  apply pack_rule
    with (I := fun s => (1 <= day s <= days)%Z
                        /\ List.length (itinerary s) = Z.to_nat (day s - 1))
         (C := fun _ => True);
    try (now apply Forall_forall); try (split; assumption).
  - intros s p travel [Hd Hl] _ _. now split.
  - intros s [Hd Hl] Hgt. cbn [itinerary]. rewrite length_app, Hl. simpl. lia.
  - intros s p travel' [Hd Hl] _ Hle _. cbn [itinerary day]. split; [lia |].
    rewrite length_app, Hl. simpl. lia.
  - intros s [Hd Hl] Hle. cbn [itinerary day]. split; [lia |].
    rewrite length_app, Hl. simpl. lia.
  - intros s [Hd Hl]. lia.
Qed.

(** The loop closes at most [days] days; the final append can add one. *)
Lemma build_days_bound (pois : list POI) :
  (1 <= days)%Z ->
  (List.length (build_greedy_itinerary osrm start_lat start_lon days
                  hours_per_day mode pois) <= Z.to_nat days + 1)%nat.
Proof.
  intros Hdays. unfold build_greedy_itinerary.
  eapply Nat.le_trans; [apply flush_length |].
  rewrite Nat.add_1_r. apply le_n_S, pack_days; simpl; [lia | reflexivity].
Qed.

(** *** Where the visits come from *)

Lemma pack_visits (l : list Cand) (st : state) (d : DayPlan) (v : Visit) :
  In d (flush (pack_loop l st)) -> In v (items d) ->
  (exists d0, (In d0 (itinerary st) \/ d0 = current_day st)
              /\ In v (items d0))
  \/ (exists q t, In q l /\ v = visit_of q t 60).
Proof.
  intros Hd Hv. apply flush_In in Hd. revert d v Hd Hv.
  set (origin := fun v : Visit =>
    (exists d0, (In d0 (itinerary st) \/ d0 = current_day st)
                /\ In v (items d0))
    \/ (exists q t, In q l /\ v = visit_of q t 60)).
  set (I := fun s : state =>
    forall d v, In d (itinerary s) \/ d = current_day s ->
                In v (items d) -> origin v).
  change (I (pack_loop l st)).
  apply pack_rule with (I := I) (C := fun q => In q l).
  - intros s p travel Hs Hp _ d v [Hd | ->] Hv.
    + apply (Hs d v); [now left | exact Hv].
    + cbn [current_day items] in Hv. apply in_app_or in Hv as [Hv | [<- | []]].
      * apply (Hs (current_day s) v); [now right | exact Hv].
      * right. now exists p, travel.
  - intros s Hs _ d v [Hd | ->] Hv; cbn [itinerary current_day] in *.
    + apply in_app_or in Hd as [Hd | [<- | []]].
      * apply (Hs d v); [now left | exact Hv].
      * apply (Hs (current_day s) v); [now right | exact Hv].
    + apply (Hs (current_day s) v); [now right | exact Hv].
  - intros s p travel' Hs Hp _ _ d v [Hd | ->] Hv;
      cbn [itinerary current_day items] in *.
    + apply in_app_or in Hd as [Hd | [<- | []]].
      * apply (Hs d v); [now left | exact Hv].
      * apply (Hs (current_day s) v); [now right | exact Hv].
    + destruct Hv as [<- | []]. right. now exists p, travel'.
  - intros s Hs _ d v [Hd | ->] Hv; cbn [itinerary current_day items] in *.
    + apply in_app_or in Hd as [Hd | [<- | []]].
      * apply (Hs d v); [now left | exact Hv].
      * apply (Hs (current_day s) v); [now right | exact Hv].
    + destruct Hv.
  - auto.
  - apply Forall_forall. auto.
  - intros d v Hd Hv. left. now exists d.
Qed.

End PackFacts.

(** ** Runs of the builder *)

Lemma travel_time_replies (seconds : list R) (n : nat) (s : R)
    (lat1 lon1 lat2 lon2 : R) (mode : string) :
  nth_error seconds n = Some s ->
  travel_time_between (osrm_replies seconds) n lat1 lon1 lat2 lon2 mode
  = s / 60.
Proof.
  intros H. unfold travel_time_between, osrm_replies. now rewrite H.
Qed.

Lemma poi_list_place (nm : string) (la lo : R) (rest : list POI)
    (start_lat start_lon : R) :
  la <> 0 -> lo <> 0 ->
  poi_list (place nm la lo :: rest) start_lat start_lon
  = mkCand (place nm la lo) la lo
      (score_poi (place nm la lo) start_lat start_lon)
      :: poi_list rest start_lat start_lon.
Proof.
  intros Hla Hlo. simpl. unfold resolve_lat, resolve_lon. simpl.
  now rewrite !py_or_truthy.
Qed.

Lemma sorted_cons_shape {A : Type} (key : A -> R) (x : A) (l : list A) :
  exists y l', sorted key (x :: l) = y :: l'
               /\ List.length l' = List.length l.
Proof.
  pose proof (sorted_length key (x :: l)) as H.
  destruct (sorted key (x :: l)) as [| y l']; [discriminate |].
  exists y, l'. split; [reflexivity | simpl in H; lia].
Qed.

(** C2, at the scenario of the specification: one hour per day, on foot,
    two candidates that each need 1 + 60 minutes.  Both are dropped, and
    the day that was open when the first one was refused is returned with
    no visit in it. *)
Theorem build_returns_empty_day :
  build_greedy_itinerary (osrm_replies [60; 60]) 0 0 1 1 "foot"
    [place "Cafe" 1 1; place "Museum" 2 2]
  = [mkDay 1 [] (1 * 60)].
Proof.
  unfold build_greedy_itinerary.
  rewrite !poi_list_place by lra.
  match goal with
  | |- context [sorted ?k (?x :: ?l)] =>
      destruct (sorted_cons_shape k x l) as (y & l' & -> & _)
  end.
  rewrite pack_break.
  - reflexivity.
  - cbn [initial requests current_day minutes_left].
    rewrite (travel_time_replies [60; 60] 0 60) by reflexivity. lra.
  - simpl. lia.
Qed.

(** C1, at the scenario of the specification: one day requested, a first
    candidate at the origin that fits and a second one, ten hours away,
    that does not.  The day is appended when the second candidate is
    refused and once more after the loop: two days are returned, each
    with the one visit; the second candidate is in neither. *)
Theorem build_repeats_last_day :
  build_greedy_itinerary (osrm_replies [0; 36000]) 27 76 1 8 "foot"
    [place "Fort" 27 76; place "Lake" 28 77]
  = [mkDay 1 [mkVisit (Some "Fort") 27 76 0 60 None] 420;
     mkDay 1 [mkVisit (Some "Fort") 27 76 0 60 None] 420].
Proof.
  unfold build_greedy_itinerary.
  rewrite !poi_list_place by lra. cbn [poi_list].
  rewrite sorted_id.
  2:{ apply SSorted_cons;
        [apply SSorted_cons; [apply SSorted_nil | apply Forall_nil] |].
      apply Forall_cons; [| apply Forall_nil].
      cbn [_score]. unfold score_poi.
      unfold resolve_lat, resolve_lon. cbn [place get_point poi_point pt_lat
        pt_lon poi_lat poi_lon]. rewrite !py_or_truthy by lra.
      rewrite haversine_km_refl.
      pose proof (haversine_km_nonneg 27 76 28 77).
      unfold get_rate; cbn [poi_rate place]. lra. }
  rewrite pack_fits.
  2:{ cbn [initial requests current_day minutes_left].
      rewrite (travel_time_replies [0; 36000] 0 0) by reflexivity. lra. }
  rewrite pack_break.
  2:{ cbn [requests current_day minutes_left initial].
      rewrite (travel_time_replies [0; 36000] 0 0) by reflexivity.
      rewrite (travel_time_replies [0; 36000] 1 36000) by reflexivity. lra. }
  2:{ simpl. lia. }
  unfold flush.
  cbn [initial requests current_day current_lat current_lon itinerary items
       minutes_left day_no app _lat _lon].
  rewrite (travel_time_replies [0; 36000] 0 0) by reflexivity.
  unfold visit_of. cbn [raw place poi_name poi_kinds _lat _lon].
  rewrite (round1_near (0 / 60) 0) by lra.
  replace (8 * 60 - (0 / 60 + 60)) with 420 by lra.
  replace (0 / 10) with 0 by lra.
  reflexivity.
Qed.

(** ** The capacity of a day *)

Lemma osrm_replies_nonneg (seconds : list R) :
  Forall (fun s => 0 <= s) seconds ->
  forall n profile lon1 lat1 lon2 lat2 minutes,
    route_minutes (osrm_replies seconds n profile lon1 lat1 lon2 lat2)
    = inr minutes ->
    0 <= minutes.
Proof.
  intros Hall n profile lon1 lat1 lon2 lat2 minutes.
  unfold osrm_replies. destruct (nth_error seconds n) as [s |] eqn:E.
  - rewrite route_minutes_ok. intros [= <-].
    apply nth_error_In in E.
    rewrite Forall_forall in Hall. specialize (Hall s E). lra.
  - discriminate.
Qed.

(** Three candidates reached in 3.6 s, 3.6 s and 3591.6 s fill a day of
    four hours up to 0.02 minute, whatever their order. *)
Lemma three_hops_run (x y z : Cand) :
  flush (pack (osrm_replies [3.6; 3.6; 3591.6]) 48 2 1 4 "foot" [x; y; z]
           (initial 48 2 4))
  = [mkDay 1
       [visit_of x (3.6 / 60) 60; visit_of y (3.6 / 60) 60;
        visit_of z (3591.6 / 60) 60]
       (4 * 60 - (3.6 / 60 + 60) - (3.6 / 60 + 60) - (3591.6 / 60 + 60))].
Proof.
  rewrite pack_fits.
  2:{ cbn [initial requests current_day minutes_left].
      rewrite (travel_time_replies _ 0 3.6) by reflexivity. lra. }
  cbn [initial requests current_day current_lat current_lon minutes_left
       items day_no app itinerary day].
  rewrite (travel_time_replies _ 0 3.6) by reflexivity.
  rewrite pack_fits.
  2:{ cbn [requests current_day minutes_left].
      rewrite (travel_time_replies _ 1 3.6) by reflexivity. lra. }
  cbn [requests current_day current_lat current_lon minutes_left
       items day_no app itinerary day].
  rewrite (travel_time_replies _ 1 3.6) by reflexivity.
  rewrite pack_fits.
  2:{ cbn [requests current_day minutes_left].
      rewrite (travel_time_replies _ 2 3591.6) by reflexivity. lra. }
  cbn [requests current_day current_lat current_lon minutes_left
       items day_no app itinerary day].
  rewrite (travel_time_replies _ 2 3591.6) by reflexivity.
  reflexivity.
Qed.

Lemma sorted_three_shape {A : Type} (key : A -> R) (a b c : A) :
  exists x y z, sorted key [a; b; c] = [x; y; z].
Proof.
  pose proof (sorted_length key [a; b; c]) as H.
  destruct (sorted key [a; b; c]) as [| x [| y [| z [| w l]]]];
    try discriminate.
  now exists x, y, z.
Qed.

(** C3, as stated, fails: the visits of this day book 240.1 minutes, more
    than the 240 minutes of the day. *)
Lemma capacity_exceeded_by_rounding :
  exists d,
    In d (build_greedy_itinerary (osrm_replies [3.6; 3.6; 3591.6])
            48 2 1 4 "foot"
            [place "Square" 48.001 2.001; place "Fountain" 48.002 2.002;
             place "Abbey" 48.04 2.04])
    /\ booked d > 4 * 60.
Proof.
  unfold build_greedy_itinerary.
  rewrite !poi_list_place by lra. cbn [poi_list].
  match goal with
  | |- context [sorted ?k [?a; ?b; ?c]] =>
      destruct (sorted_three_shape k a b c) as (x & y & z & ->)
  end.
  rewrite three_hops_run.
  eexists. split; [left; reflexivity |].
  unfold booked, visit_of. cbn [items fold_right travel_min visit_min].
  rewrite (round1_near (3.6 / 60) 1) by lra.
  rewrite (round1_near (3591.6 / 60) 599) by lra.
  lra.
Qed.

(** C3, amended.  For every day returned, the minutes booked by its
    visits (stored travel time plus visit time) are the minutes taken off
    its counter, [hours_per_day * 60 - minutes_left], up to 0.05 minute
    per visit, since the stored travel times are rounded to one decimal
    and the counter is not; the counter of a day that has a visit is not
    negative, nor is any counter when [hours_per_day >= 0]; and when the
    routing service reports no negative duration, every visit has taken
    at least its 60 minutes off the counter. *)
Theorem capacity_up_to_rounding osrm start_lat start_lon days hours_per_day
    mode (pois : list POI) (d : DayPlan) :
  In d (build_greedy_itinerary osrm start_lat start_lon days hours_per_day
          mode pois) ->
  (- (INR (List.length (items d)) / 20)
   <= booked d - (hours_per_day * 60 - minutes_left d)
   <= INR (List.length (items d)) / 20)
  /\ (items d <> [] -> 0 <= minutes_left d)
  /\ (0 <= hours_per_day -> 0 <= minutes_left d)
  /\ ((forall n profile lon1 lat1 lon2 lat2 minutes,
          route_minutes (osrm n profile lon1 lat1 lon2 lat2) = inr minutes ->
          0 <= minutes) ->
      minutes_left d + 60 * INR (List.length (items d))
      <= hours_per_day * 60).
Proof.
  intros Hd.
  destruct (build_within _ _ _ _ _ _ _ _ Hd) as (Hb & Hne & Hh).
  repeat split; try assumption; try apply Hb.
  intros Hnn. now apply (build_slack _ _ _ _ _ _ Hnn _ _ Hd).
Qed.

(** The scenario of the specification with one candidate, ten minutes
    away, and two hours per day: one day, one visit, 70 minutes used. *)
Lemma one_visit_run :
  build_greedy_itinerary (osrm_replies [600]) 27 76 1 2 "foot"
    [place "Fort" 27.01 76.01]
  = [mkDay 1 [mkVisit (Some "Fort") 27.01 76.01 10 60 None] 50].
Proof.
  unfold build_greedy_itinerary.
  rewrite !poi_list_place by lra. cbn [poi_list sorted insert_by].
  rewrite pack_fits.
  2:{ cbn [initial requests current_day minutes_left].
      rewrite (travel_time_replies _ 0 600) by reflexivity. lra. }
  cbn [pack flush initial requests current_day current_lat current_lon
       itinerary items minutes_left day_no app _lat _lon].
  rewrite (travel_time_replies _ 0 600) by reflexivity.
  unfold visit_of. cbn [raw place poi_name poi_kinds _lat _lon].
  rewrite (round1_near (600 / 60) 100) by lra.
  replace (2 * 60 - (600 / 60 + 60)) with 50 by lra.
  replace (100 / 10) with 10 by lra.
  reflexivity.
Qed.

Lemma capacity_up_to_rounding_witness :
  let d := mkDay 1 [mkVisit (Some "Fort") 27.01 76.01 10 60 None] 50 in
  (- (INR (List.length (items d)) / 20)
   <= booked d - (2 * 60 - minutes_left d)
   <= INR (List.length (items d)) / 20)
  /\ 0 <= minutes_left d
  /\ minutes_left d + 60 * INR (List.length (items d)) <= 2 * 60.
Proof.
  intros d.
  assert (Hin : In d (build_greedy_itinerary (osrm_replies [600]) 27 76 1 2
                        "foot" [place "Fort" 27.01 76.01])).
  { rewrite one_visit_run. left. reflexivity. }
  destruct (capacity_up_to_rounding _ _ _ _ _ _ _ _ Hin)
    as (Hb & Hne & Hh & Hs).
  split; [exact Hb |]. split.
  - apply Hne. discriminate.
  - apply Hs, osrm_replies_nonneg. constructor; [lra | constructor].
Defined.

(** ** A candidate that opens a new day *)

(** C6.  When a candidate does not fit in the current day and a day is
    left, the travel time is computed again, from the start of the trip.
    If the candidate then fits, it is the first visit of the new day and
    the position moves to it; if not, the new day stays empty, the
    position stays where it was, and the loop goes on with the next
    candidates: no visit of the result is made from the dropped one. *)
Theorem new_day_restarts_from_origin osrm start_lat start_lon days
    hours_per_day mode (p : Cand) (rest : list Cand) (st : state) :
  let travel :=
    travel_time_between osrm (requests st) (current_lat st) (current_lon st)
      (_lat p) (_lon p) mode in
  let travel' :=
    travel_time_between osrm (S (requests st)) start_lat start_lon
      (_lat p) (_lon p) mode in
  let run := pack osrm start_lat start_lon days hours_per_day mode in
  ~ minutes_left (current_day st) >= travel + 60 ->
  (day st + 1 <= days)%Z ->
  (hours_per_day * 60 >= travel' + 60 ->
   run (p :: rest) st
   = run rest
       {| current_lat := _lat p;
          current_lon := _lon p;
          day := day st + 1;
          itinerary := itinerary st ++ [current_day st];
          current_day :=
            mkDay (day st + 1) [visit_of p travel' 60]
              (hours_per_day * 60 - (travel' + 60));
          requests := S (S (requests st)) |})
  /\ (~ hours_per_day * 60 >= travel' + 60 ->
      run (p :: rest) st
      = run rest
          {| current_lat := current_lat st;
             current_lon := current_lon st;
             day := day st + 1;
             itinerary := itinerary st ++ [current_day st];
             current_day := mkDay (day st + 1) [] (hours_per_day * 60);
             requests := S (S (requests st)) |}
      /\ forall d v,
          In d (flush (run (p :: rest) st)) -> In v (items d) ->
          (exists d0, In d0 (itinerary st ++ [current_day st])
                      /\ In v (items d0))
          \/ (exists q t, In q rest /\ v = visit_of q t 60)).
Proof.
  intros travel travel' run Hno Hday. split.
  - intros Hfit. now apply pack_new_day_fits.
  - intros Hdrop.
    assert (E := pack_new_day_drops osrm start_lat start_lon days
                   hours_per_day mode p rest st Hno Hday Hdrop).
    split; [exact E |].
    intros d v Hd Hv. unfold run in Hd. rewrite E in Hd.
    destruct (pack_visits _ _ _ _ _ _ _ _ _ _ Hd Hv)
      as [(d0 & Hd0 & Hv0) | Hq]; [left | now right].
    cbn [itinerary current_day items] in *.
    destruct Hd0 as [Hd0 | ->]; [now exists d0 | destruct Hv0].
Qed.

Lemma new_day_restarts_from_origin_witness :
  pack (osrm_replies [0; 900; 600]) 27 76 2 2 "foot" [lake] afternoon
  = {| current_lat := 28;
       current_lon := 77;
       day := 2;
       itinerary := [current_day afternoon];
       current_day :=
         mkDay 2 [visit_of lake (600 / 60) 60] (2 * 60 - (600 / 60 + 60));
       requests := 3 |}
  /\ pack (osrm_replies [0; 900; 7200]) 27 76 2 2 "foot" [lake] afternoon
     = {| current_lat := 27.5;
          current_lon := 76.5;
          day := 2;
          itinerary := [current_day afternoon];
          current_day := mkDay 2 [] (2 * 60);
          requests := 3 |}.
Proof.
  split.
  - pose proof (new_day_restarts_from_origin (osrm_replies [0; 900; 600])
                  27 76 2 2 "foot" lake [] afternoon) as H.
    cbv zeta in H.
    rewrite (travel_time_replies _ 1 900) in H by reflexivity.
    rewrite (travel_time_replies _ 2 600) in H by reflexivity.
    destruct H as [Hfit _].
    + simpl. lra.
    + simpl. lia.
    + rewrite Hfit by lra. reflexivity.
  - pose proof (new_day_restarts_from_origin (osrm_replies [0; 900; 7200])
                  27 76 2 2 "foot" lake [] afternoon) as H.
    cbv zeta in H.
    rewrite (travel_time_replies _ 1 900) in H by reflexivity.
    rewrite (travel_time_replies _ 2 7200) in H by reflexivity.
    destruct H as [_ Hdrop].
    + simpl. lra.
    + simpl. lia.
    + destruct Hdrop as [E _]; [lra |]. rewrite E. reflexivity.
Defined.

(** ** Coordinates that are zero *)

Lemma poi_list_app (a b : list POI) (start_lat start_lon : R) :
  poi_list (a ++ b) start_lat start_lon
  = poi_list a start_lat start_lon ++ poi_list b start_lat start_lon.
Proof.
  induction a as [| p a IH]; [reflexivity |].
  simpl. destruct (resolve_lat p), (resolve_lon p); simpl; now rewrite IH.
Qed.

Lemma poi_list_unresolved (p : POI) (rest : list POI)
    (start_lat start_lon : R) :
  resolve_lat p = None \/ resolve_lon p = None ->
  poi_list (p :: rest) start_lat start_lon = poi_list rest start_lat start_lon.
Proof.
  simpl. intros [-> | ->]; [reflexivity |]. now destruct (resolve_lat p).
Qed.

(** C10.  A latitude or longitude [0] in the nested point is passed over
    for the flat field; when the record has no flat field either, it has
    no position for the planner: its score is [0] and the itinerary is
    the one built without it. *)
Theorem zero_coordinate_is_skipped (poi : POI) :
  (pt_lat (get_point poi) = Some 0 -> resolve_lat poi = poi_lat poi)
  /\ (pt_lon (get_point poi) = Some 0 -> resolve_lon poi = poi_lon poi)
  /\ ((pt_lat (get_point poi) = Some 0 /\ poi_lat poi = None)
      \/ (pt_lon (get_point poi) = Some 0 /\ poi_lon poi = None) ->
      forall osrm start_lat start_lon days hours_per_day mode before after,
        score_poi poi start_lat start_lon = 0
        /\ poi_list (before ++ poi :: after) start_lat start_lon
           = poi_list (before ++ after) start_lat start_lon
        /\ build_greedy_itinerary osrm start_lat start_lon days hours_per_day
             mode (before ++ poi :: after)
           = build_greedy_itinerary osrm start_lat start_lon days
               hours_per_day mode (before ++ after)).
Proof.
  assert (Hlat : pt_lat (get_point poi) = Some 0 ->
                 resolve_lat poi = poi_lat poi).
  { intros H. unfold resolve_lat. rewrite H. apply py_or_zero. }
  assert (Hlon : pt_lon (get_point poi) = Some 0 ->
                 resolve_lon poi = poi_lon poi).
  { intros H. unfold resolve_lon. rewrite H. apply py_or_zero. }
  split; [exact Hlat |]. split; [exact Hlon |].
  intros Hzero osrm start_lat start_lon days hours_per_day mode before after.
  assert (Hnone : resolve_lat poi = None \/ resolve_lon poi = None).
  { destruct Hzero as [[H0 Hflat] | [H0 Hflat]].
    - left. now rewrite Hlat.
    - right. now rewrite Hlon. }
  assert (Hlist : poi_list (before ++ poi :: after) start_lat start_lon
                  = poi_list (before ++ after) start_lat start_lon).
  { rewrite !poi_list_app. f_equal. now apply poi_list_unresolved. }
  split; [| split; [exact Hlist |]].
  - now apply score_poi_unresolved.
  - unfold build_greedy_itinerary. now rewrite Hlist.
Qed.

Lemma zero_coordinate_is_skipped_witness :
  score_poi equator_marker 1 11 = 0
  /\ build_greedy_itinerary osrm_down 1 11 2 8 "foot"
       [place "Bridge" 1 11; equator_marker]
     = build_greedy_itinerary osrm_down 1 11 2 8 "foot"
         [place "Bridge" 1 11].
Proof.
  destruct (zero_coordinate_is_skipped equator_marker) as (_ & _ & H).
  destruct (H (or_introl (conj eq_refl eq_refl)) osrm_down 1 11 2%Z 8 "foot"
              [place "Bridge" 1 11] []) as (Hs & _ & Hb).
  split; [exact Hs | exact Hb].
Defined.

(** ** Days that are closed stay in the result *)

Lemma pack_keeps_days osrm start_lat start_lon days hours_per_day mode
    (l : list Cand) (st : state) (d : DayPlan) :
  In d (itinerary st) ->
  In d (itinerary (pack osrm start_lat start_lon days hours_per_day mode
                     l st)).
Proof.
  intros Hd.
  apply pack_rule
    with (I := fun s => In d (itinerary s)) (C := fun _ : Cand => True);
    try assumption; try (now apply Forall_forall); try auto;
    intros; cbn [itinerary]; apply in_or_app; now left.
Qed.

Lemma flush_keeps_days (st : state) (d : DayPlan) :
  In d (itinerary st) -> In d (flush st).
Proof.
  intros Hd. unfold flush. destruct (items (current_day st)); [exact Hd |].
  apply in_or_app. now left.
Qed.

(** One hour per day, two candidates that each need 61 minutes: the empty
    first day is returned whatever the number of days asked for. *)
Lemma empty_day_for_any_day_count (days : Z) :
  In (mkDay 1 [] (1 * 60))
    (build_greedy_itinerary (osrm_replies [60; 60; 60; 60]) 0 0 days 1 "foot"
       [place "Cafe" 1 1; place "Museum" 2 2]).
Proof.
  unfold build_greedy_itinerary.
  rewrite !poi_list_place by lra.
  match goal with
  | |- context [sorted ?k (?x :: ?l)] =>
      destruct (sorted_cons_shape k x l) as (y & l' & -> & _)
  end.
  assert (Hno : ~ 1 * 60 >= 60 / 60 + 60) by lra.
  destruct (Z_gt_le_dec (1 + 1) days) as [Hgt | Hle].
  - rewrite pack_break.
    + left. reflexivity.
    + cbn [initial requests current_day minutes_left].
      now rewrite (travel_time_replies _ 0 60) by reflexivity.
    + exact Hgt.
  - rewrite pack_new_day_drops.
    + apply flush_keeps_days, pack_keeps_days. left. reflexivity.
    + cbn [initial requests current_day minutes_left].
      now rewrite (travel_time_replies _ 0 60) by reflexivity.
    + exact Hle.
    + cbn [initial requests].
      now rewrite (travel_time_replies _ 1 60) by reflexivity.
Qed.

(** * Further properties of the code *)

(** ** The candidate list *)

Lemma poi_list_raw (pois : list POI) (start_lat start_lon : R) :
  map raw (poi_list pois start_lat start_lon) = filter resolvable pois.
Proof.
  induction pois as [| p pois IH]; [reflexivity |].
  simpl. unfold resolvable.
  destruct (resolve_lat p), (resolve_lon p); simpl; now rewrite ?IH.
Qed.

Lemma poi_list_In (pois : list POI) (start_lat start_lon : R) (c : Cand) :
  In c (poi_list pois start_lat start_lon) ->
  In (raw c) pois
  /\ resolve_lat (raw c) = Some (_lat c)
  /\ resolve_lon (raw c) = Some (_lon c)
  /\ _score c = score_poi (raw c) start_lat start_lon.
Proof.
  induction pois as [| p pois IH]; [intros [] |].
  simpl. destruct (resolve_lat p) as [la |] eqn:Ela;
    [destruct (resolve_lon p) as [lo |] eqn:Elo |].
  - intros [<- | Hc].
    + simpl. auto.
    + destruct (IH Hc) as (H1 & H2). auto.
  - intros Hc. destruct (IH Hc) as (H1 & H2). auto.
  - intros Hc. destruct (IH Hc) as (H1 & H2). auto.
Qed.

Lemma poi_list_length (pois : list POI) (start_lat start_lon : R) :
  (List.length (poi_list pois start_lat start_lon) <= List.length pois)%nat.
Proof.
  rewrite <- (length_map raw), poi_list_raw. apply filter_length_le.
Qed.

(** X1.  The candidates are the records of which both coordinates resolve,
    in the order of the input; each carries its resolved coordinates and
    its score, [rate * 2 - distance from the start]. *)
Theorem candidates_are_resolvable_records (pois : list POI)
    (start_lat start_lon : R) :
  map raw (poi_list pois start_lat start_lon) = filter resolvable pois
  /\ forall c, In c (poi_list pois start_lat start_lon) ->
       resolve_lat (raw c) = Some (_lat c)
       /\ resolve_lon (raw c) = Some (_lon c)
       /\ _score c
          = get_rate (raw c) * 2
            - haversine_km start_lat start_lon (_lat c) (_lon c).
Proof.
  split; [apply poi_list_raw |].
  intros c Hc. destruct (poi_list_In _ _ _ _ Hc) as (_ & Hla & Hlo & Hs).
  repeat split; try assumption.
  rewrite Hs. unfold score_poi. now rewrite Hla, Hlo.
Qed.

Lemma candidates_are_resolvable_records_witness :
  _score (mkCand (place "Fort" 27 76) 27 76
            (score_poi (place "Fort" 27 76) 26 75))
  = get_rate (place "Fort" 27 76) * 2 - haversine_km 26 75 27 76.
Proof.
  apply (proj2 (candidates_are_resolvable_records [place "Fort" 27 76] 26 75)
           (mkCand (place "Fort" 27 76) 27 76
              (score_poi (place "Fort" 27 76) 26 75))).
  rewrite poi_list_place by lra. left. reflexivity.
Defined.

(** ** The itinerary as a whole *)

Lemma numbered_snoc (l : list DayPlan) (d : DayPlan) :
  numbered l -> day_no d = Z.of_nat (S (List.length l)) ->
  numbered (l ++ [d]).
Proof.
  unfold numbered. intros Hl Hd.
  rewrite map_app, length_app, Nat.add_1_r, seq_S, map_app, Hl. simpl.
  now rewrite Hd.
Qed.

Section ItineraryFacts.

Variable osrm : nat -> string -> R -> R -> R -> R -> result json.
Variables (start_lat start_lon : R) (days : Z) (hours_per_day : R)
          (mode : string).

Local Abbreviation build :=
  (build_greedy_itinerary osrm start_lat start_lon days hours_per_day mode).
Local Abbreviation run :=
  (pack osrm start_lat start_lon days hours_per_day mode).
Local Abbreviation start := (initial start_lat start_lon hours_per_day).

(** X2.  When no record has both coordinates, and so for an empty input,
    the itinerary has no day. *)
Theorem nothing_resolvable_no_day (pois : list POI) :
  (forall p, In p pois -> resolvable p = false) ->
  build pois = [].
Proof.
  intros Hnone. unfold build_greedy_itinerary.
  assert (E : poi_list pois start_lat start_lon = []).
  { apply map_eq_nil with (f := raw). rewrite poi_list_raw.
    induction pois as [| p l IH]; [reflexivity |].
    simpl. rewrite (Hnone p (or_introl eq_refl)).
    apply IH. intros q Hq. apply Hnone. now right. }
  rewrite E. reflexivity.
Qed.

Lemma pack_day_numbers (l : list Cand) (st : state) :
  (1 <= day st <= days)%Z ->
  day_no (current_day st) = day st ->
  (forall d, In d (itinerary st) -> (1 <= day_no d <= days)%Z) ->
  forall d, In d (itinerary (run l st)) \/ d = current_day (run l st) ->
            (1 <= day_no d <= days)%Z.
Proof.
  intros Hday Hcur Hold.
  apply pack_rule
    with (I := fun s =>
                 (1 <= day s <= days)%Z
                 /\ day_no (current_day s) = day s
                 /\ forall d, In d (itinerary s) -> (1 <= day_no d <= days)%Z)
         (C := fun _ : Cand => True);
    try (now apply Forall_forall); try (repeat split; assumption).
  - intros s p travel (Hd & Hc & Ho) _ _.
    split; [exact Hd | split; [exact Hc | exact Ho]].
  - intros s (Hd & Hc & Ho) _ d [Hin | ->]; cbn [itinerary current_day] in *.
    + apply in_app_or in Hin as [Hin | [<- | []]]; [now apply Ho | lia].
    + lia.
  - intros s p travel' (Hd & Hc & Ho) _ Hle _.
    cbn [itinerary current_day day day_no].
    split; [lia | split; [reflexivity |]].
    intros d Hin. apply in_app_or in Hin as [Hin | [<- | []]];
      [now apply Ho | lia].
  - intros s (Hd & Hc & Ho) Hle.
    cbn [itinerary current_day day day_no].
    split; [lia | split; [reflexivity |]].
    intros d Hin. apply in_app_or in Hin as [Hin | [<- | []]];
      [now apply Ho | lia].
  - intros s (Hd & Hc & Ho) d [Hin | ->]; [now apply Ho | lia].
  - split; [exact Hday | split; [exact Hcur | exact Hold]].
Qed.

(** X3.  With [days >= 1] the itinerary has at most [days + 1] days, and
    every day in it carries a number between [1] and [days]. *)
Theorem days_returned_bound (pois : list POI) :
  (1 <= days)%Z ->
  (List.length (build pois) <= Z.to_nat days + 1)%nat
  /\ forall d, In d (build pois) -> (1 <= day_no d <= days)%Z.
Proof.
  intros Hdays. split; [now apply build_days_bound |].
  intros d Hd. unfold build_greedy_itinerary in Hd. apply flush_In in Hd.
  revert d Hd. apply pack_day_numbers; simpl; try lia; intros d [].
Qed.

Lemma pack_numbered (l : list Cand) (st : state) :
  numbered (itinerary st) ->
  day st = Z.of_nat (S (List.length (itinerary st))) ->
  day_no (current_day st) = day st ->
  let st' := run l st in
  numbered (itinerary st')
  /\ (day_no (current_day st')
      = Z.of_nat (S (List.length (itinerary st')))
      \/ exists pre, itinerary st' = pre ++ [current_day st']).
Proof.
  intros Hn Hday Hcur.
  apply pack_rule
    with (I := fun s =>
                 numbered (itinerary s)
                 /\ day s = Z.of_nat (S (List.length (itinerary s)))
                 /\ day_no (current_day s) = day s)
         (C := fun _ : Cand => True);
    try (now apply Forall_forall); try (repeat split; assumption).
  - intros s p travel (Hi & Hd & Hc) _ _. now repeat split.
  - intros s (Hi & Hd & Hc) _. cbn [itinerary current_day]. split.
    + apply numbered_snoc; [exact Hi | congruence].
    + right. now exists (itinerary s).
  - intros s p travel' (Hi & Hd & Hc) _ _ _.
    cbn [itinerary current_day day day_no]. repeat split.
    + apply numbered_snoc; [exact Hi | congruence].
    + rewrite length_app, Hd. simpl. lia.
  - intros s (Hi & Hd & Hc) _.
    cbn [itinerary current_day day day_no]. repeat split.
    + apply numbered_snoc; [exact Hi | congruence].
    + rewrite length_app, Hd. simpl. lia.
  - intros s (Hi & Hd & Hc). split; [exact Hi |]. left. congruence.
Qed.

(** X4.  The days of the itinerary are numbered 1, 2, 3, ... in order,
    with one exception: the last day can be there twice in a row, as the
    same day with the same visits. *)
Theorem days_numbered_in_order (pois : list POI) :
  numbered (build pois)
  \/ exists pre d,
       build pois = pre ++ [d; d]
       /\ numbered (pre ++ [d])
       /\ items d <> [].
Proof.
  unfold build_greedy_itinerary.
  set (l := sorted _ _).
  destruct (pack_numbered l start) as (Hn & Hc); try reflexivity.
  unfold flush. destruct (items (current_day (run l start))) eqn:E.
  - now left.
  - destruct Hc as [Hc | (pre & Hpre)].
    + left. now apply numbered_snoc.
    + right. exists pre, (current_day (run l start)).
      rewrite Hpre in *. rewrite <- app_assoc. simpl.
      repeat split; [exact Hn | congruence].
Qed.

End ItineraryFacts.

Lemma nothing_resolvable_no_day_witness :
  build_greedy_itinerary osrm_down 1 11 2 8 "foot" [equator_marker] = [].
Proof.
  apply nothing_resolvable_no_day.
  intros p [<- | []]. unfold resolvable, resolve_lat. simpl.
  now rewrite py_or_zero.
Defined.

Lemma days_returned_bound_witness :
  let r := build_greedy_itinerary (osrm_replies [600]) 27 76 1 2 "foot"
             [place "Fort" 27.01 76.01] in
  (List.length r <= Z.to_nat 1 + 1)%nat
  /\ forall d, In d r -> (1 <= day_no d <= 1)%Z.
Proof.
  apply (days_returned_bound (osrm_replies [600]) 27 76 1 2 "foot"
           [place "Fort" 27.01 76.01]).
  lia.
Defined.

(** ** The visits *)

Section SubseqFacts.

Context {A : Type}.

Lemma subseq_nil_l (l : list A) : subseq [] l.
Proof. induction l; constructor; assumption. Qed.

Lemma subseq_refl (l : list A) : subseq l l.
Proof. induction l; constructor; assumption. Qed.

Lemma subseq_app_more (a b c : list A) : subseq a b -> subseq a (b ++ c).
Proof.
  induction 1 as [| x l1 l2 H IH | x l1 l2 H IH]; simpl.
  - apply subseq_nil_l.
  - now constructor.
  - now constructor.
Qed.

Lemma subseq_snoc (a b : list A) (x : A) :
  subseq a b -> subseq (a ++ [x]) (b ++ [x]).
Proof.
  induction 1 as [| y l1 l2 H IH | y l1 l2 H IH]; simpl.
  - apply subseq_refl.
  - now constructor.
  - now constructor.
Qed.

Lemma subseq_length (a b : list A) :
  subseq a b -> (List.length a <= List.length b)%nat.
Proof. induction 1; simpl; lia. Qed.

End SubseqFacts.

Lemma round1_tenth (x : R) : exists k : Z, round1 x = IZR k / 10.
Proof. unfold round1. eauto. Qed.

Section VisitFacts.

Variable osrm : nat -> string -> R -> R -> R -> R -> result json.
Variables (start_lat start_lon : R) (days : Z) (hours_per_day : R)
          (mode : string).

Local Abbreviation build :=
  (build_greedy_itinerary osrm start_lat start_lon days hours_per_day mode).
Local Abbreviation run :=
  (pack osrm start_lat start_lon days hours_per_day mode).
Local Abbreviation start := (initial start_lat start_lon hours_per_day).
Local Abbreviation candidates pois :=
  (sorted (fun x => - _score x) (poi_list pois start_lat start_lon)).

(** X5.  Every visit of the itinerary lasts 60 minutes, has a travel time
    that is a whole number of tenths of a minute, and is made from a
    record of the input: it has the name and the kinds of the record and
    stands at its resolved coordinates. *)
Theorem visits_come_from_records (pois : list POI) (d : DayPlan) (v : Visit) :
  In d (build pois) -> In v (items d) ->
  visit_min v = 60
  /\ (exists k : Z, travel_min v = IZR k / 10)
  /\ exists p,
       In p pois
       /\ resolve_lat p = Some (lat v)
       /\ resolve_lon p = Some (lon v)
       /\ name v = poi_name p
       /\ desc v = poi_kinds p.
Proof.
  intros Hd Hv. unfold build_greedy_itinerary in Hd.
  destruct (pack_visits _ _ _ _ _ _ _ _ _ _ Hd Hv)
    as [(d0 & [[] | ->] & [])| (q & t & Hq & ->)].
  apply (Permutation_in _ (Permutation_sym (sorted_perm _ _))) in Hq.
  destruct (poi_list_In _ _ _ _ Hq) as (Hin & Hla & Hlo & _).
  split; [reflexivity |]. split; [apply round1_tenth |].
  exists (raw q). now repeat split.
Qed.

(** X6.  When the routing service reports no negative duration, a day
    holds at most [hours_per_day] visits. *)
Theorem visits_per_day_bound (pois : list POI) (d : DayPlan) :
  (forall n profile lon1 lat1 lon2 lat2 minutes,
      route_minutes (osrm n profile lon1 lat1 lon2 lat2) = inr minutes ->
      0 <= minutes) ->
  In d (build pois) -> items d <> [] ->
  INR (List.length (items d)) <= hours_per_day.
Proof.
  intros Hnn Hd Hne.
  pose proof (build_slack _ _ _ _ _ _ Hnn _ _ Hd) as Hs.
  destruct (build_within _ _ _ _ _ _ _ _ Hd) as (_ & Hml & _).
  specialize (Hml Hne). lra.
Qed.

Lemma pack_requests (l : list Cand) (st : state) :
  (requests st <= requests (run l st) <= requests st + 2 * List.length l)%nat.
Proof.
  revert st. induction l as [| p rest IH]; intros st; [simpl; lia |].
  simpl. destruct (Rge_dec _ _).
  - specialize (IH
      {| current_lat := _lat p;
         current_lon := _lon p;
         day := day st;
         itinerary := itinerary st;
         current_day :=
           mkDay (day_no (current_day st))
             (items (current_day st)
              ++ [visit_of p
                    (travel_time_between osrm (requests st) (current_lat st)
                       (current_lon st) (_lat p) (_lon p) mode) 60])
             (minutes_left (current_day st)
              - (travel_time_between osrm (requests st) (current_lat st)
                   (current_lon st) (_lat p) (_lon p) mode + 60));
         requests := S (requests st) |}).
    cbn [requests] in IH. lia.
  - destruct (day st + 1 >? days)%Z; [simpl; lia |].
    destruct (Rge_dec _ _);
      match goal with
      | |- context [pack _ _ _ _ _ _ rest ?s] => specialize (IH s)
      end; cbn [requests] in IH; lia.
Qed.

(** X7.  The builder sends at most two routing requests for each record of
    the input. *)
Theorem routing_requests_bound (pois : list POI) :
  (requests (run (candidates pois) start) <= 2 * List.length pois)%nat.
Proof.
  pose proof (pack_requests (candidates pois) start) as H.
  pose proof (poi_list_length pois start_lat start_lon) as Hl.
  rewrite sorted_length in H. simpl in H. lia.
Qed.

Lemma stop_at_visit_of (p : Cand) (t v : R) :
  stop_at (visit_of p t v) = stop_of p.
Proof. reflexivity. Qed.

Lemma pack_subseq (l : list Cand) (st : state) (pre : list _) :
  (forall d, In d (itinerary st) \/ d = current_day st ->
             subseq (map stop_at (items d)) pre) ->
  forall d, In d (itinerary (run l st)) \/ d = current_day (run l st) ->
            subseq (map stop_at (items d)) (pre ++ map stop_of l).
Proof.
  revert st pre. induction l as [| p rest IH]; intros st pre Hst.
  - simpl. rewrite app_nil_r. exact Hst.
  - assert (Hclosed : forall d, In d (itinerary st ++ [current_day st]) ->
              subseq (map stop_at (items d)) (pre ++ [stop_of p])).
    { intros d Hd. apply subseq_app_more, Hst.
      apply in_app_or in Hd as [Hd | [<- | []]]; [now left | now right]. }
    replace (pre ++ map stop_of (p :: rest))
      with ((pre ++ [stop_of p]) ++ map stop_of rest)
      by (rewrite <- app_assoc; reflexivity).
    simpl pack. destruct (Rge_dec _ _).
    + apply IH. cbn [itinerary current_day items].
      intros d [Hd | ->].
      * apply subseq_app_more, Hst. now left.
      * cbn [items]. rewrite map_app. simpl map. rewrite stop_at_visit_of.
        apply subseq_snoc, Hst. now right.
    + destruct (day st + 1 >? days)%Z.
      * cbn [itinerary current_day]. intros d [Hd | ->].
        -- now apply subseq_app_more, Hclosed.
        -- apply subseq_app_more, subseq_app_more, Hst. now right.
      * destruct (Rge_dec _ _); apply IH; cbn [itinerary current_day];
          intros d [Hd | ->]; try (now apply Hclosed); cbn [items map].
        -- rewrite stop_at_visit_of.
           apply (subseq_snoc [] pre (stop_of p)), subseq_nil_l.
        -- apply subseq_nil_l.
Qed.

(** X8.  Within each day of the itinerary the visits follow the order of
    the sorted candidates, highest score first, and none is made twice
    from one candidate. *)
Theorem visits_follow_candidate_order (pois : list POI) (d : DayPlan) :
  In d (build pois) ->
  subseq (map stop_at (items d)) (map stop_of (candidates pois)).
Proof.
  intros Hd. unfold build_greedy_itinerary in Hd. apply flush_In in Hd.
  revert d Hd. apply (pack_subseq (candidates pois) start []).
  intros d [[] | ->]. constructor.
Qed.

End VisitFacts.

Lemma one_visit_In :
  In (mkDay 1 [mkVisit (Some "Fort") 27.01 76.01 10 60 None] 50)
    (build_greedy_itinerary (osrm_replies [600]) 27 76 1 2 "foot"
       [place "Fort" 27.01 76.01]).
Proof. rewrite one_visit_run. left. reflexivity. Qed.

Lemma visits_come_from_records_witness :
  exists p,
    In p [place "Fort" 27.01 76.01]
    /\ resolve_lat p = Some 27.01
    /\ resolve_lon p = Some 76.01
    /\ Some "Fort" = poi_name p
    /\ None = poi_kinds p.
Proof.
  apply (visits_come_from_records (osrm_replies [600]) 27 76 1 2 "foot"
           [place "Fort" 27.01 76.01]
           (mkDay 1 [mkVisit (Some "Fort") 27.01 76.01 10 60 None] 50)
           (mkVisit (Some "Fort") 27.01 76.01 10 60 None)).
  - apply one_visit_In.
  - left. reflexivity.
Defined.

Lemma visits_per_day_bound_witness :
  INR (List.length [mkVisit (Some "Fort") 27.01 76.01 10 60 None]) <= 2.
Proof.
  apply (visits_per_day_bound (osrm_replies [600]) 27 76 1 2 "foot"
           [place "Fort" 27.01 76.01]
           (mkDay 1 [mkVisit (Some "Fort") 27.01 76.01 10 60 None] 50)).
  - apply osrm_replies_nonneg. constructor; [lra | constructor].
  - apply one_visit_In.
  - discriminate.
Defined.

Lemma visits_follow_candidate_order_witness :
  subseq [(Some "Fort", 27.01, 76.01)]
    (map stop_of
       (sorted (fun x => - _score x)
          (poi_list [place "Fort" 27.01 76.01] 27 76))).
Proof.
  apply (visits_follow_candidate_order (osrm_replies [600]) 27 76 1 2 "foot"
           [place "Fort" 27.01 76.01]
           (mkDay 1 [mkVisit (Some "Fort") 27.01 76.01 10 60 None] 50)).
  apply one_visit_In.
Defined.

(** ** Travel modes *)

Lemma travel_time_other_mode osrm n lat1 lon1 lat2 lon2 (mode : string) :
  mode <> "foot" ->
  travel_time_between osrm n lat1 lon1 lat2 lon2 mode
  = travel_time_between osrm n lat1 lon1 lat2 lon2 "driving".
Proof.
  intros Hm. apply String.eqb_neq in Hm.
  unfold travel_time_between. now rewrite Hm.
Qed.

Lemma pack_other_mode osrm start_lat start_lon days hours_per_day
    (mode : string) (l : list Cand) (st : state) :
  mode <> "foot" ->
  pack osrm start_lat start_lon days hours_per_day mode l st
  = pack osrm start_lat start_lon days hours_per_day "driving" l st.
Proof.
  intros Hm. revert st. induction l as [| p rest IH]; intros st;
    [reflexivity |].
  simpl. rewrite !(fun n a b c d => travel_time_other_mode osrm n a b c d mode Hm).
  destruct (Rge_dec _ _); [apply IH |].
  destruct (day st + 1 >? days)%Z; [reflexivity |].
  destruct (Rge_dec _ _); apply IH.
Qed.

(** X9.  Every mode other than ["foot"] is planned as ["driving"]: the
    mode is not checked against the two modes of the interface, and its
    spelling counts. *)
Theorem other_modes_are_driving osrm start_lat start_lon days hours_per_day
    (mode : string) (pois : list POI) :
  mode <> "foot" ->
  build_greedy_itinerary osrm start_lat start_lon days hours_per_day mode pois
  = build_greedy_itinerary osrm start_lat start_lon days hours_per_day
      "driving" pois.
Proof.
  intros Hm. unfold build_greedy_itinerary. now rewrite pack_other_mode.
Qed.

Lemma other_modes_are_driving_witness :
  build_greedy_itinerary osrm_down 27 76 2 8 "Foot" [place "Fort" 27.01 76.01]
  = build_greedy_itinerary osrm_down 27 76 2 8 "driving"
      [place "Fort" 27.01 76.01].
Proof.
  apply (other_modes_are_driving osrm_down 27 76 2 8 "Foot"
           [place "Fort" 27.01 76.01]).
  discriminate.
Defined.

(** ** More on the great-circle distance *)

Lemma radians_plus (x y : R) : radians (x + y) = radians x + radians y.
Proof. unfold radians. ring. Qed.

Lemma radians_180 : radians 180 = PI.
Proof. unfold radians. field. Qed.

Lemma sin_sqr_shift_PI (x : R) : sin (x - PI) ^ 2 = sin x ^ 2.
Proof.
  replace (sin x) with (sin ((x - PI) + PI)) by (f_equal; ring).
  rewrite neg_sin. ring.
Qed.

(** X10.  The distance depends on the longitudes by their difference only,
    and a full turn of 360 degrees on a longitude does not change it. *)
Theorem haversine_km_longitude (lat1 lon1 lat2 lon2 : R) :
  (forall t : R,
      haversine_km lat1 (lon1 + t) lat2 (lon2 + t)
      = haversine_km lat1 lon1 lat2 lon2)
  /\ haversine_km lat1 (lon1 + 360) lat2 lon2
     = haversine_km lat1 lon1 lat2 lon2
  /\ haversine_km lat1 lon1 lat2 (lon2 + 360)
     = haversine_km lat1 lon1 lat2 lon2.
Proof.
  assert (Hturn : forall la1 lo1 la2 lo2,
             hav_a la1 (lo1 + 360) la2 lo2 = hav_a la1 lo1 la2 lo2).
  { intros. unfold hav_a. rewrite radians_plus.
    replace (radians 360) with (2 * PI) by (unfold radians; field).
    replace ((radians lo2 - (radians lo1 + 2 * PI)) / 2)
      with ((radians lo2 - radians lo1) / 2 - PI) by field.
    now rewrite sin_sqr_shift_PI. }
  unfold haversine_km. repeat split.
  - intros t. f_equal. unfold hav_a. rewrite !radians_plus.
    replace (radians lon2 + radians t - (radians lon1 + radians t))
      with (radians lon2 - radians lon1) by ring.
    reflexivity.
  - now rewrite Hturn.
  - now rewrite (hav_a_sym lat1 lon1 lat2 (lon2 + 360)), Hturn, hav_a_sym.
Qed.

Lemma km_of_a_1 : km_of_a 1 = PI * 6371.
Proof.
  unfold km_of_a, asin_arg. rewrite sqrt_1.
  unfold Rmin. destruct (Rle_dec 1 1); [| lra].
  rewrite asin_1. field.
Qed.

(** X11.  The bound [pi * 6371] is reached: it is the distance between
    a point and the opposite point of the sphere. *)
Theorem haversine_km_antipode (lat1 lon1 : R) :
  haversine_km lat1 lon1 (- lat1) (lon1 + 180) = PI * 6371.
Proof.
  unfold haversine_km.
  replace (hav_a lat1 lon1 (- lat1) (lon1 + 180)) with 1;
    [apply km_of_a_1 |].
  unfold hav_a. rewrite radians_plus, radians_180.
  replace (radians (- lat1)) with (- radians lat1) by (unfold radians; ring).
  replace ((- radians lat1 - radians lat1) / 2) with (- radians lat1)
    by field.
  replace ((radians lon1 + PI - radians lon1) / 2) with (PI / 2) by field.
  rewrite sin_neg, cos_neg, sin_PI2.
  pose proof (sin2_cos2 (radians lat1)) as H. unfold Rsqr in H. lra.
Qed.

Lemma km_of_sin_sqr (x : R) :
  - (PI / 2) <= x <= PI / 2 ->
  km_of_a (sin x ^ 2) = 6371 * (2 * Rabs x).
Proof.
  intros Hx. unfold km_of_a, asin_arg.
  rewrite <- Rsqr_pow2, sqrt_Rsqr_abs.
  pose proof PI_RGT_0 as Hpi.
  assert (Habs : Rabs (sin x) = sin (Rabs x)).
  { destruct (Rle_dec 0 x) as [Hpos | Hneg].
    - rewrite (Rabs_pos_eq x) by exact Hpos.
      apply Rabs_pos_eq, sin_ge_0; lra.
    - apply Rnot_le_lt in Hneg. rewrite (Rabs_left x) by exact Hneg.
      rewrite sin_neg. apply Rabs_left1.
      assert (0 <= sin (- x)) by (apply sin_ge_0; lra).
      rewrite sin_neg in *. lra. }
  rewrite Habs.
  pose proof (SIN_bound (Rabs x)) as [_ Hle].
  unfold Rmin. destruct (Rle_dec 1 (sin (Rabs x))) as [H1 | H1].
  - replace 1 with (sin (Rabs x)) at 1 by lra.
    rewrite asin_sin; [reflexivity |].
    unfold Rabs. destruct (Rcase_abs x); lra.
  - rewrite asin_sin; [reflexivity |].
    unfold Rabs. destruct (Rcase_abs x); lra.
Qed.

(** X12.  Along a meridian, and along the equator, the distance is the
    arc: the radius times the angle in radians, for points at most 180
    degrees apart (one degree is [6371 * pi / 180] km). *)
Theorem haversine_km_arc (deg1 deg2 other : R) :
  - 180 <= deg2 - deg1 <= 180 ->
  haversine_km deg1 other deg2 other = 6371 * Rabs (radians (deg2 - deg1))
  /\ haversine_km 0 deg1 0 deg2 = 6371 * Rabs (radians (deg2 - deg1)).
Proof.
  intros Hd.
  assert (Hx : - (PI / 2) <= radians (deg2 - deg1) / 2 <= PI / 2).
  { unfold radians. pose proof PI_RGT_0. split; nra. }
  assert (Habs : 2 * Rabs (radians (deg2 - deg1) / 2)
                 = Rabs (radians (deg2 - deg1))).
  { unfold Rdiv. rewrite Rabs_mult, (Rabs_pos_eq (/ 2)) by lra. field. }
  assert (Hsub : radians deg2 - radians deg1 = radians (deg2 - deg1))
    by (unfold radians; ring).
  unfold haversine_km. split.
  - replace (hav_a deg1 other deg2 other)
      with (sin (radians (deg2 - deg1) / 2) ^ 2).
    + rewrite km_of_sin_sqr by exact Hx. now rewrite Habs.
    + unfold hav_a. rewrite Hsub.
      replace ((radians other - radians other) / 2) with 0 by field.
      rewrite sin_0. ring.
  - replace (hav_a 0 deg1 0 deg2)
      with (sin (radians (deg2 - deg1) / 2) ^ 2).
    + rewrite km_of_sin_sqr by exact Hx. now rewrite Habs.
    + unfold hav_a. rewrite Hsub.
      replace (radians 0) with 0 by (unfold radians; ring).
      replace ((0 - 0) / 2) with 0 by field.
      rewrite sin_0, cos_0. ring.
Qed.

Lemma haversine_km_arc_witness :
  haversine_km 26 75 27 75 = 6371 * Rabs (radians (27 - 26))
  /\ haversine_km 0 26 0 27 = 6371 * Rabs (radians (27 - 26)).
Proof.
  apply (haversine_km_arc 26 27 75). lra.
Defined.

(** ** More on the routing answer, the estimate and the score *)

Lemma truediv_int (z : Z) (m : R) :
  truediv (JInt z) 60 = inr m <->
  Rabs (IZR z / 60) < float_overflow /\ m = IZR z / 60.
Proof.
  unfold truediv.
  destruct (Rle_dec float_overflow (Rabs (IZR z / 60))) as [H | H]; split.
  - discriminate.
  - intros [Hlt _]. lra.
  - intros [= <-]. split; [lra | reflexivity].
  - intros [_ ->]. reflexivity.
Qed.

(** X13.  The duration of the routing service is used exactly when the
    answer is a dictionary whose ["routes"] is a list, whose first route
    is a dictionary, and whose ["duration"] is a float, a boolean (which
    Python divides as 0 or 1) or an integer whose sixtieth is not too
    large for a float; every other answer is a failure and leads to the
    estimate. *)
Theorem route_minutes_shape (resp : result json) (m : R) :
  route_minutes resp = inr m <->
  exists kv kv0 tail dv,
    resp = inr (JDict kv)
    /\ getitem_str (JDict kv) "routes" = inr (JList (JDict kv0 :: tail))
    /\ getitem_str (JDict kv0) "duration" = inr dv
    /\ ((exists x, dv = JNum x /\ m = x / 60)
        \/ (exists z, dv = JInt z
                      /\ Rabs (IZR z / 60) < float_overflow
                      /\ m = IZR z / 60)
        \/ (exists b : bool, dv = JBool b /\ m = (if b then 1 else 0) / 60)).
Proof.
  split.
  - destruct resp as [e | r]; [discriminate |].
    unfold route_minutes. cbn [bind].
    destruct r as [| | | | | | kv]; try discriminate.
    destruct (getitem_str (JDict kv) "routes") as [e | routes] eqn:E1;
      [discriminate |]. cbn [bind].
    destruct routes as [| | | | s | l |]; try discriminate.
    + cbn [getitem_int]. destruct (String.get 0 s); discriminate.
    + destruct l as [| r0 tail]; [discriminate |].
      cbn [getitem_int nth_error bind].
      destruct r0 as [| | | | | | kv0]; try discriminate.
      destruct (getitem_str (JDict kv0) "duration") as [e | dv] eqn:E2;
        [discriminate |]. cbn [bind].
      intros H. exists kv, kv0, tail, dv.
      split; [reflexivity | split; [exact E1 | split; [exact E2 |]]].
      destruct dv as [| b | x | z | | |]; try discriminate.
      * injection H as <-. right. right. now exists b.
      * injection H as <-. left. now exists x.
      * apply truediv_int in H. right. left. now exists z.
  - intros (kv & kv0 & tail & dv & -> & E1 & E2 & Hdv).
    unfold route_minutes. cbn [bind]. rewrite E1. cbn [bind getitem_int
      nth_error]. rewrite E2. cbn [bind].
    destruct Hdv as [(x & -> & ->) | [(z & -> & Hz) | (b & -> & ->)]];
      try reflexivity.
    now apply truediv_int.
Qed.

(** An integer duration of 10^400 seconds is refused by the division: the
    estimate is used. *)
Lemma route_minutes_overflow :
  route_minutes
    (inr (JDict [("routes", JList [JDict [("duration", JInt (10 ^ 400))]])]))
  = inl OverflowError.
Proof.
  unfold route_minutes. cbn [bind getitem_str find fst snd].
  change (String.eqb "routes" "routes") with true.
  cbn [bind getitem_int nth_error getitem_str find fst snd].
  change (String.eqb "duration" "duration") with true.
  cbn [bind snd]. unfold truediv.
  destruct (Rle_dec float_overflow (Rabs (IZR (10 ^ 400) / 60)))
    as [_ | H]; [reflexivity |].
  exfalso. apply H. unfold float_overflow.
  assert (Hpos : 0 <= IZR (10 ^ 400) / 60).
  { apply Rmult_le_pos; [apply IZR_le; now vm_compute | lra]. }
  rewrite (Rabs_pos_eq _ Hpos).
  apply Rmult_le_reg_r with 60; [lra |].
  replace (IZR (10 ^ 400) / 60 * 60) with (IZR (10 ^ 400)) by field.
  rewrite <- mult_IZR. apply IZR_le. now vm_compute.
Qed.

Lemma route_minutes_shape_witness :
  route_minutes (inr (route_ok 600)) = inr (600 / 60)
  /\ route_minutes
       (inr (JDict [("routes", JList [JDict [("duration", JInt 600)]])]))
     = inr (IZR 600 / 60).
Proof.
  split.
  - apply (proj2 (route_minutes_shape (inr (route_ok 600)) (600 / 60))).
    exists [("code", JStr "Ok");
            ("routes", JList [JDict [("duration", JNum 600)]])],
           [("duration", JNum 600)], [], (JNum 600).
    repeat split. left. now exists 600.
  - apply (proj2 (route_minutes_shape
             (inr (JDict [("routes",
                           JList [JDict [("duration", JInt 600)]])]))
             (IZR 600 / 60))).
    exists [("routes", JList [JDict [("duration", JInt 600)]])],
           [("duration", JInt 600)], [], (JInt 600).
    repeat split. right. left. exists 600%Z. repeat split.
    unfold float_overflow.
    rewrite Rabs_pos_eq by lra.
    apply Rmult_lt_reg_r with 60; [lra |].
    replace (600 / 60 * 60) with (IZR 600) by field.
    rewrite <- mult_IZR. apply IZR_lt. now vm_compute.
Defined.

(** X14.  When the routing requests fail, the travel time from A to B is
    the one from B to A, it lies between [0] and [12 * pi * 6371]
    minutes, and it is [0] from a point to itself. *)
Theorem fallback_estimate_properties osrm (n n' : nat)
    (lat1 lon1 lat2 lon2 : R) (mode : string) (e e' : exn) :
  let profile := if String.eqb mode "foot" then "foot" else "driving" in
  route_minutes (osrm n profile lon1 lat1 lon2 lat2) = inl e ->
  route_minutes (osrm n' profile lon2 lat2 lon1 lat1) = inl e' ->
  travel_time_between osrm n lat1 lon1 lat2 lon2 mode
  = travel_time_between osrm n' lat2 lon2 lat1 lon1 mode
  /\ 0 <= travel_time_between osrm n lat1 lon1 lat2 lon2 mode
     <= 12 * PI * 6371
  /\ (lat1 = lat2 -> lon1 = lon2 ->
      travel_time_between osrm n lat1 lon1 lat2 lon2 mode = 0).
Proof.
  intros profile H1 H2. unfold travel_time_between.
  fold profile. rewrite H1, H2.
  pose proof (km_of_a_bounds (hav_a lat1 lon1 lat2 lon2)) as Hb.
  fold (haversine_km lat1 lon1 lat2 lon2) in Hb.
  split; [| split].
  - unfold haversine_km. now rewrite hav_a_sym.
  - destruct (String.eqb mode "foot"); lra.
  - intros -> ->. rewrite haversine_km_refl.
    destruct (String.eqb mode "foot"); lra.
Qed.

Lemma fallback_estimate_properties_witness :
  travel_time_between osrm_down 0 26 75 27 76 "foot"
  = travel_time_between osrm_down 1 27 76 26 75 "foot"
  /\ 0 <= travel_time_between osrm_down 0 26 75 27 76 "foot"
     <= 12 * PI * 6371.
Proof.
  destruct (fallback_estimate_properties osrm_down 0 1 26 75 27 76 "foot"
              ReadTimeout ReadTimeout eq_refl eq_refl) as (H1 & H2 & _).
  split; [exact H1 | exact H2].
Defined.

(** X15.  The score of a record with coordinates is at most twice its
    rate, which it reaches at the start point, and at least twice its rate
    minus [pi * 6371]. *)
Theorem score_poi_bounds (poi : POI) (origin_lat origin_lon la lo : R) :
  resolve_lat poi = Some la -> resolve_lon poi = Some lo ->
  get_rate poi * 2 - PI * 6371
  <= score_poi poi origin_lat origin_lon
  <= get_rate poi * 2
  /\ (la = origin_lat -> lo = origin_lon ->
      score_poi poi origin_lat origin_lon = get_rate poi * 2).
Proof.
  intros Hla Hlo. unfold score_poi. rewrite Hla, Hlo.
  pose proof (km_of_a_bounds (hav_a origin_lat origin_lon la lo)) as Hb.
  fold (haversine_km origin_lat origin_lon la lo) in Hb.
  split; [lra |].
  intros -> ->. rewrite haversine_km_refl. ring.
Qed.

Lemma score_poi_bounds_witness :
  score_poi (place "Fort" 27 76) 27 76 = get_rate (place "Fort" 27 76) * 2.
Proof.
  apply (proj2 (score_poi_bounds (place "Fort" 27 76) 27 76 27 76
                  (py_or_truthy 27 None ltac:(lra))
                  (py_or_truthy 76 None ltac:(lra))));
    reflexivity.
Defined.

(** ** The directory helpers *)

Lemma raise_for_status_spec (resp : response) :
  (raise_for_status resp = inl HTTPError
   /\ (400 <= status_code resp < 600)%Z)
  \/ (raise_for_status resp = inr tt
      /\ ~ (400 <= status_code resp < 600)%Z).
Proof.
  unfold raise_for_status.
  destruct (Z.leb_spec 400 (status_code resp));
    destruct (Z.ltb_spec (status_code resp) 600); simpl;
    (left; split; [reflexivity | lia]) || (right; split; [reflexivity | lia]).
Qed.

Section DirectoryFacts.

Variable OPENTRIPMAP_KEY : option string.
Variable http_get : string -> list (string * param) -> raised + response.

Local Abbreviation fetch :=
  (fetch_pois_opentripmap OPENTRIPMAP_KEY http_get).
Local Abbreviation radius_url :=
  "https://api.opentripmap.com/0.1/en/places/radius".

(** X16.  [fetch_pois_opentripmap] turns an HTTP error (a status from 400
    to 599, or [HTTPError] raised by the request) into the empty list
    with an error message, and nothing else: any other exception of the
    request and a body that does not decode reach the caller; with any
    other status the decoded body is returned as it is. *)
Theorem fetch_pois_error_behaviour (lat lon radius_m : R)
    (kinds : option string) (limit : R) :
  let answer :=
    http_get radius_url
      (fetch_params OPENTRIPMAP_KEY lat lon radius_m kinds limit) in
  (forall e,
      fetch lat lon radius_m kinds limit = inl e <->
      answer = inl (Other e)
      \/ exists resp, answer = inr resp
                      /\ ~ (400 <= status_code resp < 600)%Z
                      /\ body resp = inl e)
  /\ (forall items shown,
         fetch lat lon radius_m kinds limit = inr (items, shown) <->
         (items = JList [] /\ shown = true
          /\ (answer = inl HTTPError
              \/ exists resp, answer = inr resp
                              /\ (400 <= status_code resp < 600)%Z))
         \/ (shown = false
             /\ exists resp, answer = inr resp
                             /\ ~ (400 <= status_code resp < 600)%Z
                             /\ body resp = inr items)).
Proof.
  intros answer. unfold fetch_pois_opentripmap. fold answer.
  destruct answer as [[| e0] | resp].
  - split.
    + intros e. split; [discriminate |].
      intros [H | (resp & H & _)]; discriminate.
    + intros items shown. split.
      * intros [= <- <-]. left. auto.
      * intros [(-> & -> & _) | (_ & resp & H & _)];
          [reflexivity | discriminate].
  - split.
    + intros e. split.
      * intros [= ->]. now left.
      * intros [[= ->] | (resp & H & _)]; [reflexivity | discriminate].
    + intros items shown. split; [discriminate |].
      intros [(_ & _ & [H | (resp & H & _)]) | (_ & resp & H & _)];
        discriminate.
  - destruct (raise_for_status_spec resp) as [[-> Hs] | [-> Hs]].
    + split.
      * intros e. split; [discriminate |].
        intros [H | (r & [= <-] & Hn & _)]; [discriminate | contradiction].
      * intros items shown. split.
        -- intros [= <- <-]. left. repeat split. right. now exists resp.
        -- intros [(-> & -> & _) | (_ & r & [= <-] & Hn & _)];
             [reflexivity | contradiction].
    + destruct (body resp) as [e0 | j] eqn:Eb.
      * split.
        -- intros e. split.
           ++ intros [= ->]. right. now exists resp.
           ++ intros [H | (r & [= <-] & _ & Hb)]; [discriminate |].
              congruence.
        -- intros items shown. split; [discriminate |].
           intros [(_ & _ & [H | (r & [= <-] & Hr)])
                  | (_ & r & [= <-] & _ & Hb)];
             [discriminate | contradiction | congruence].
      * split.
        -- intros e. split; [discriminate |].
           intros [H | (r & [= <-] & _ & Hb)]; [discriminate | congruence].
        -- intros items shown. split.
           ++ intros [= <- <-]. right. split; [reflexivity |].
              now exists resp.
           ++ intros [(_ & _ & [H | (r & [= <-] & Hr)])
                     | (-> & r & [= <-] & _ & Hb)];
                [discriminate | contradiction | congruence].
Qed.

(** X17.  [get_poi_details] returns the decoded body only for an answer
    of status 200 whose body decodes; for every other outcome, also an
    exception of the request, it returns the empty dictionary. *)
Theorem get_poi_details_behaviour (xid : string) (details : json) :
  let answer :=
    http_get
      (String.append "https://api.opentripmap.com/0.1/en/places/xid/" xid)
      [("apikey", param_of_env OPENTRIPMAP_KEY)] in
  details <> JDict [] ->
  (get_poi_details OPENTRIPMAP_KEY http_get xid = details <->
   exists resp, answer = inr resp
                /\ status_code resp = 200%Z
                /\ body resp = inr details).
Proof.
  intros answer Hne. unfold get_poi_details. fold answer.
  destruct answer as [r | resp].
  - split; [congruence |]. intros (resp & H & _). discriminate.
  - destruct (Z.eqb_spec (status_code resp) 200) as [Hs | Hs]; simpl.
    + destruct (body resp) as [e | j] eqn:Eb.
      * split; [congruence |]. intros (r & [= <-] & _ & Hb). congruence.
      * split.
        -- intros ->. now exists resp.
        -- intros (r & [= <-] & _ & Hb). congruence.
    + split; [congruence |]. intros (r & [= <-] & Hr & _). contradiction.
Qed.

End DirectoryFacts.

Lemma fetch_pois_error_behaviour_witness :
  fetch_pois_opentripmap (Some "key") (http_always 404 (inr (JList [])))
    27 76 5000 None 60
  = inr (JList [], true)
  /\ fetch_pois_opentripmap (Some "key")
       (fun _ _ => inl (Other ReadTimeout)) 27 76 5000 None 60
     = inl ReadTimeout.
Proof.
  split.
  - apply (proj2 (fetch_pois_error_behaviour (Some "key")
                    (http_always 404 (inr (JList []))) 27 76 5000 None 60)).
    left. repeat split. right.
    exists (mkResponse 404 (inr (JList []))). split; [reflexivity |].
    simpl. lia.
  - apply (proj1 (fetch_pois_error_behaviour (Some "key")
                    (fun _ _ => inl (Other ReadTimeout))
                    27 76 5000 None 60)).
    left. reflexivity.
Defined.

Lemma get_poi_details_behaviour_witness :
  get_poi_details (Some "key")
    (http_always 200 (inr (JDict [("name", JStr "Fort")]))) "N123"
  = JDict [("name", JStr "Fort")].
Proof.
  apply (get_poi_details_behaviour (Some "key")
           (http_always 200 (inr (JDict [("name", JStr "Fort")]))) "N123").
  - discriminate.
  - exists (mkResponse 200 (inr (JDict [("name", JStr "Fort")]))).
    repeat split.
Defined.

(** ** Interests and the [kinds] parameter *)

Lemma interest_kind_option (i : string) :
  In i interest_options ->
  exists k, interest_kind i = inr k /\ k <> "".
Proof.
  intros H. repeat (destruct H as [<- | H]; [eexists; split;
    [reflexivity | discriminate] |]). destruct H.
Qed.

Lemma interest_kind_unknown (i : string) :
  ~ In i interest_options -> interest_kind i = inl KeyError.
Proof.
  intros H. unfold interest_kind, INTEREST_MAPPING. cbn [find fst snd].
  repeat match goal with
  | |- context [String.eqb ?k i] =>
      destruct (String.eqb_spec k i) as [E | _];
      [exfalso; apply H; rewrite <- E; simpl; tauto |]
  end.
  reflexivity.
Qed.

Lemma interest_kinds_options (interests : list string) :
  Forall (fun i => In i interest_options) interests ->
  exists ks, interest_kinds interests = inr ks
             /\ List.length ks = List.length interests
             /\ Forall (fun k => k <> "") ks.
Proof.
  induction 1 as [| i rest Hi _ (ks & E & Hl & Hk)].
  - exists []. repeat split. constructor.
  - destruct (interest_kind_option i Hi) as (k & Ek & Hne).
    exists (k :: ks). simpl. rewrite Ek. cbn [bind]. rewrite E. cbn [bind].
    repeat split; [simpl; lia | now constructor].
Qed.

Lemma interest_kinds_error (interests : list string) (e : exn) :
  interest_kinds interests = inl e -> e = KeyError.
Proof.
  induction interests as [| i rest IH]; [discriminate |].
  simpl. unfold interest_kind.
  destruct (find _ INTEREST_MAPPING); cbn [bind]; [| congruence].
  destruct (interest_kinds rest); cbn [bind]; [| discriminate].
  intros [= <-]. now apply IH.
Qed.

Lemma interest_kinds_unknown (interests : list string) (i : string) :
  In i interests -> ~ In i interest_options ->
  interest_kinds interests = inl KeyError.
Proof.
  intros Hi Hno.
  induction interests as [| j rest IH]; [destruct Hi |].
  simpl. destruct (interest_kind j) as [e | k] eqn:Ej; cbn [bind].
  - unfold interest_kind in Ej.
    destruct (find _ INTEREST_MAPPING); congruence.
  - destruct Hi as [-> | Hi].
    + rewrite (interest_kind_unknown _ Hno) in Ej. discriminate.
    + now rewrite (IH Hi).
Qed.

Lemma concat_nonempty (sep k : string) (ks : list string) :
  k <> "" -> String.concat sep (k :: ks) <> "".
Proof.
  intros Hk. destruct k as [| c k]; [congruence |].
  simpl. destruct ks; discriminate.
Qed.

(** X18.  For interests taken from the six options of the selector, the
    [kinds] string is built without error; the request carries a
    ["kinds"] parameter exactly when an interest is selected.  An interest
    outside the mapping raises [KeyError]. *)
Theorem kinds_of_interests (interests : list string) :
  (Forall (fun i => In i interest_options) interests ->
   exists kinds,
     kinds_of interests = inr kinds
     /\ (interests = [] -> kinds = None)
     /\ forall key lat lon radius_m limit,
          In "kinds"
            (map fst (fetch_params key lat lon radius_m kinds limit))
          <-> interests <> [])
  /\ ((exists i, In i interests /\ ~ In i interest_options) ->
      kinds_of interests = inl KeyError).
Proof.
  split.
  - intros Hall. destruct interests as [| i rest].
    + exists None. repeat split; try reflexivity.
      * simpl. intros H. repeat (destruct H as [H | H]; [discriminate |]).
        destruct H.
      * congruence.
    + destruct (interest_kinds_options _ Hall) as (ks & E & Hl & Hk).
      destruct ks as [| k ks]; [discriminate |].
      exists (Some (String.concat "," (k :: ks))).
      unfold kinds_of. rewrite E. cbn [bind].
      split; [reflexivity |]. split; [discriminate |].
      intros key lat lon radius_m limit. split; [discriminate |].
      intros _. unfold fetch_params.
      assert (Hne : String.concat "," (k :: ks) <> "").
      { apply concat_nonempty. now inversion Hk. }
      destruct (String.concat "," (k :: ks)) as [| c s]; [congruence |].
      simpl. tauto.
  - intros (i & Hi & Hno). destruct interests as [| j rest]; [destruct Hi |].
    unfold kinds_of.
    now rewrite (interest_kinds_unknown (j :: rest) i Hi Hno).
Qed.

Lemma kinds_of_interests_witness :
  (exists kinds,
      kinds_of ["historic"; "food"] = inr kinds
      /\ (["historic"; "food"] = [] -> kinds = None)
      /\ forall key lat lon radius_m limit,
           In "kinds"
             (map fst (fetch_params key lat lon radius_m kinds limit))
           <-> ["historic"; "food"] <> [])
  /\ kinds_of ["beach"] = inl KeyError.
Proof.
  split.
  - apply (proj1 (kinds_of_interests ["historic"; "food"])).
    repeat constructor; simpl; tauto.
  - apply (proj2 (kinds_of_interests ["beach"])).
    exists "beach". split; [now left |].
    simpl. intros H.
    repeat (destruct H as [H | H]; [discriminate |]). destruct H.
Defined.
